(** * Tiered audio cache and failover monitoring: a shallow embedding

    This development embeds the core of
    [src/Backend/backend/src/services/smartAudioCache.mjs] (class
    [SmartAudioCache]) and of
    [src/Backend/backend/src/services/failoverMonitoring.mjs] (class
    [FailoverMonitoringService]) and proves properties of them.

    Modelling conventions.
    - A JavaScript [Map] keyed by strings is an association list kept in
      insertion order, as [Map] iteration order is insertion order
      (module [JSMap]).
    - A Rocq [string] is a JavaScript string whose UTF-16 code units are
      all below 256 (Latin-1), one [ascii] per code unit; it is hashed as
      its UTF-8 encoding ([utf8_encode]).
    - A [Buffer] is a list of byte values ([list Z]).
    - The services the code calls (Polly, S3, the file system, the
      clock) are an environment record: the code only reads their answers.
    - Within one cache operation the clock [Date.now()] is read as one
      instant [now]. *)

From Stdlib Require Import ZArith List String Ascii Bool Lia.
Import ListNotations.
Open Scope string_scope.
Open Scope Z_scope.
Open Scope list_scope.

(** ** JavaScript [Map] with string keys *)

Module JSMap.
Definition t (V : Type) := list (string * V).

Section Ops.
Context {V : Type}.

Definition empty : t V := [].

Fixpoint get (k : string) (m : t V) : option V :=
  match m with
  | [] => None
  | (k', v) :: m' => if String.eqb k' k then Some v else get k m'
  end.

Definition has (k : string) (m : t V) : bool :=
  match get k m with Some _ => true | None => false end.

(** [Map.prototype.set]: an existing key keeps its position and takes
    the new value; a new key is appended at the end. *)
Definition upd (k : string) (v : V) (e : string * V) : string * V :=
  let '(k', v') := e in if String.eqb k' k then (k', v) else (k', v').

Definition set (k : string) (v : V) (m : t V) : t V :=
  if has k m then map (upd k v) m else (m ++ [(k, v)])%list.

Definition delete (k : string) (m : t V) : t V :=
  filter (fun '(k', _) => negb (String.eqb k' k)) m.

Definition size (m : t V) : nat := List.length m.

Definition keys (m : t V) : list string := map fst m.

(** [m.keys().next().value]: the first key in insertion order, or
    [undefined] on an empty map. *)
Definition first_key (m : t V) : option string :=
  match m with [] => None | (k, _) :: _ => Some k end.

(** [m.delete(m.keys().next().value)]; deleting [undefined] from a
    map with string keys does nothing. *)
Definition delete_first (m : t V) : t V :=
  match first_key m with Some k => delete k m | None => m end.
End Ops.
End JSMap.

(** ** String helpers

    A Rocq [string] stands for a JavaScript string whose UTF-16 code units
    are all below 256 (the Latin-1 range), one [ascii] per code unit. *)

Definition code (c : ascii) : Z := Z.of_nat (nat_of_ascii c).

Definition chr (n : Z) : ascii := ascii_of_nat (Z.to_nat n).

Fixpoint string_of_list (l : list ascii) : string :=
  match l with [] => EmptyString | c :: l' => String c (string_of_list l') end.

(** JavaScript white space and line terminators (WhiteSpace,
    LineTerminator) in the Latin-1 range: TAB, LF, VT, FF, CR, SPACE and
    NO-BREAK SPACE. *)
Definition is_js_space (c : ascii) : bool :=
  let n := code c in
  (n =? 32) || (n =? 9) || (n =? 10) || (n =? 11) || (n =? 12) || (n =? 13) || (n =? 160).

Fixpoint drop_leading_space (l : list ascii) : list ascii :=
  match l with
  | [] => []
  | c :: l' => if is_js_space c then drop_leading_space l' else l
  end.

(** [String.prototype.trim] *)
Definition trim (s : string) : string :=
  string_of_list
    (rev (drop_leading_space (rev (drop_leading_space (list_ascii_of_string s))))).

(** The lowercase mapping of a Latin-1 code unit: [A]-[Z] and
    U+00C0-U+00DE except U+00D7 (the multiplication sign) move up by 32;
    every other code unit below 256 maps to itself. *)
Definition lower_char (c : ascii) : ascii :=
  let n := code c in
  if ((65 <=? n) && (n <=? 90)) || ((192 <=? n) && (n <=? 222) && negb (n =? 215))
  then chr (n + 32) else c.

(** [String.prototype.toLowerCase] *)
Definition toLowerCase (s : string) : string :=
  string_of_list (map lower_char (list_ascii_of_string s)).

Definition hex_digit (n : Z) : ascii :=
  if n <? 10 then chr (48 + n) else chr (87 + n).

(** The quotation mark and the reverse solidus. *)
Definition dquote : ascii := ascii_of_nat 34.
Definition backslash : ascii := ascii_of_nat 92.

(** The quoting of a string by [JSON.stringify] (QuoteJSONString). *)
Definition json_escape_char (c : ascii) : list ascii :=
  let n := code c in
  if n =? 8 then ["\"; "b"]%char
  else if n =? 9 then ["\"; "t"]%char
  else if n =? 10 then ["\"; "n"]%char
  else if n =? 12 then ["\"; "f"]%char
  else if n =? 13 then ["\"; "r"]%char
  else if n =? 34 then [backslash; dquote]
  else if n =? 92 then ["\"; "\"]%char
  else if n <? 32 then ["\"; "u"; "0"; "0"; hex_digit (n / 16); hex_digit (n mod 16)]%char
  else [c].

Definition json_quote (s : string) : string :=
  string_of_list
    ((dquote :: flat_map json_escape_char (list_ascii_of_string s)) ++ [dquote]).

(** ** MD5 ([crypto.createHash('md5')], RFC 1321) *)

Module MD5.
Definition w32 : Z := 2 ^ 32.
Definition add (x y : Z) : Z := (x + y) mod w32.
Definition not32 (x : Z) : Z := Z.lxor x (w32 - 1).
Definition rotl (x : Z) (n : Z) : Z :=
  Z.lor (Z.shiftl x n mod w32) (Z.shiftr x (32 - n)).

Definition S : list Z :=
  [7; 12; 17; 22; 7; 12; 17; 22; 7; 12; 17; 22; 7; 12; 17; 22;
   5;  9; 14; 20; 5;  9; 14; 20; 5;  9; 14; 20; 5;  9; 14; 20;
   4; 11; 16; 23; 4; 11; 16; 23; 4; 11; 16; 23; 4; 11; 16; 23;
   6; 10; 15; 21; 6; 10; 15; 21; 6; 10; 15; 21; 6; 10; 15; 21].

Definition K : list Z :=
  [0xd76aa478; 0xe8c7b756; 0x242070db; 0xc1bdceee; 0xf57c0faf; 0x4787c62a;
   0xa8304613; 0xfd469501; 0x698098d8; 0x8b44f7af; 0xffff5bb1; 0x895cd7be;
   0x6b901122; 0xfd987193; 0xa679438e; 0x49b40821; 0xf61e2562; 0xc040b340;
   0x265e5a51; 0xe9b6c7aa; 0xd62f105d; 0x02441453; 0xd8a1e681; 0xe7d3fbc8;
   0x21e1cde6; 0xc33707d6; 0xf4d50d87; 0x455a14ed; 0xa9e3e905; 0xfcefa3f8;
   0x676f02d9; 0x8d2a4c8a; 0xfffa3942; 0x8771f681; 0x6d9d6122; 0xfde5380c;
   0xa4beea44; 0x4bdecfa9; 0xf6bb4b60; 0xbebfbc70; 0x289b7ec6; 0xeaa127fa;
   0xd4ef3085; 0x04881d05; 0xd9d4d039; 0xe6db99e5; 0x1fa27cf8; 0xc4ac5665;
   0xf4292244; 0x432aff97; 0xab9423a7; 0xfc93a039; 0x655b59c3; 0x8f0ccc92;
   0xffeff47d; 0x85845dd1; 0x6fa87e4f; 0xfe2ce6e0; 0xa3014314; 0x4e0811a1;
   0xf7537e82; 0xbd3af235; 0x2ad7d2bb; 0xeb86d391].

Record state := mk { a : Z; b : Z; c : Z; d : Z }.

Definition init : state := mk 0x67452301 0xefcdab89 0x98badcfe 0x10325476.

(** Little-endian 32-bit word from four bytes. *)
Fixpoint le_word (bs : list Z) : Z :=
  match bs with [] => 0 | x :: bs' => x + 256 * le_word bs' end.

Definition le_bytes (n : nat) (x : Z) : list Z :=
  map (fun i => Z.shiftr x (8 * Z.of_nat i) mod 256) (seq 0 n).

Fixpoint words (fuel : nat) (bs : list Z) : list Z :=
  match fuel with
  | O => []
  | Datatypes.S f =>
      match bs with
      | [] => []
      | _ => le_word (firstn 4 bs) :: words f (skipn 4 bs)
      end
  end.

Definition round (M : list Z) (st : state) (i : nat) : state :=
  let '(mk A B C D) := st in
  let '(F, g) :=
    if (i <? 16)%nat then (Z.lor (Z.land B C) (Z.land (not32 B) D), i)
    else if (i <? 32)%nat then (Z.lor (Z.land D B) (Z.land (not32 D) C), ((5 * i + 1) mod 16)%nat)
    else if (i <? 48)%nat then (Z.lxor B (Z.lxor C D), ((3 * i + 5) mod 16)%nat)
    else (Z.lxor C (Z.lor B (not32 D)), ((7 * i) mod 16)%nat) in
  let F' := add (add (add F A) (nth i K 0)) (nth g M 0) in
  mk D (add B (rotl F' (nth i S 0))) B C.

Definition block (st : state) (blk : list Z) : state :=
  let M := words 16 blk in
  let '(mk A B C D) := fold_left (round M) (seq 0 64) st in
  mk (add (a st) A) (add (b st) B) (add (c st) C) (add (d st) D).

Fixpoint blocks (fuel : nat) (st : state) (msg : list Z) : state :=
  match fuel with
  | O => st
  | Datatypes.S f =>
      match msg with
      | [] => st
      | _ => blocks f (block st (firstn 64 msg)) (skipn 64 msg)
      end
  end.

(** Padding: a 0x80 byte, zero bytes up to 56 mod 64, then the bit
    length as a 64-bit little-endian integer. *)
Definition pad (msg : list Z) : list Z :=
  let n := List.length msg in
  let zeros := ((119 - n mod 64) mod 64)%nat in
  msg ++ [128] ++ repeat 0 zeros ++ le_bytes 8 (8 * Z.of_nat n).

Definition digest (msg : list Z) : list Z :=
  let p := pad msg in
  let '(mk A B C D) := blocks (List.length p) init p in
  le_bytes 4 A ++ le_bytes 4 B ++ le_bytes 4 C ++ le_bytes 4 D.
End MD5.

(** [digest('hex')]: two lowercase hexadecimal digits per byte. *)
Definition hex_of_bytes (bs : list Z) : string :=
  string_of_list (flat_map (fun x => [hex_digit (x / 16); hex_digit (x mod 16)]) bs).

(** The UTF-8 encoding of a string of Latin-1 code units. *)
Definition utf8_encode (s : string) : list Z :=
  flat_map (fun c => let n := code c in
                     if n <? 128 then [n] else [192 + n / 64; 128 + n mod 64])
           (list_ascii_of_string s).

(** [crypto.createHash('md5').update(s).digest('hex')]: a string passed
    to [update] is hashed as its UTF-8 encoding. *)
Definition md5_hex (s : string) : string :=
  hex_of_bytes (MD5.digest (utf8_encode s)).

(** ** [generateCacheKey] *)

(** The [options] argument: [engine] and [format] may be absent. *)
Record Options := { engine : option string; format : option string }.

Definition no_options : Options := {| engine := None; format := None |}.

(** [x || d] on an optional string: [undefined] and [""] are falsy. *)
Definition or_default (o : option string) (d : string) : string :=
  match o with
  | Some s => if String.eqb s EmptyString then d else s
  | None => d
  end.

(** [JSON.stringify({ text: text.trim().toLowerCase(), voiceId,
    engine: options.engine || 'neural', format: options.format || 'mp3' })] *)
Definition cache_key_data (text voiceId : string) (options : Options) : string :=
  let q (s : string) := String dquote (s ++ String dquote EmptyString) in
  ("{" ++ q "text" ++ ":" ++ json_quote (toLowerCase (trim text)) ++
   "," ++ q "voiceId" ++ ":" ++ json_quote voiceId ++
   "," ++ q "engine" ++ ":" ++ json_quote (or_default (engine options) "neural") ++
   "," ++ q "format" ++ ":" ++ json_quote (or_default (format options) "mp3") ++ "}")%string.

Definition generateCacheKey (text voiceId : string) (options : Options) : string :=
  md5_hex (cache_key_data text voiceId options).

(** ** The [SmartAudioCache] state *)

Definition buffer := list Z.

(** An entry of [this.memoryCache]: [{ data, timestamp }]. *)
Record MemEntry := { data : buffer; timestamp : Z }.

(** The content of a [<cacheKey>.meta] file: the JSON written by
    [storeToDiskCache], or text that [JSON.parse] rejects. *)
Inductive MetaFile :=
| Meta (ts : Z) (size : Z) (key : string)
| MetaUnparsable.

(** Fields set by the constructor and never assigned afterwards. *)
Record Config := {
  s3Cache : bool;
  maxMemoryCache : nat;
  maxDiskCache : nat;
  cacheExpiry : Z }.

Definition constructor_config : Config :=
  {| s3Cache := true; maxMemoryCache := 50; maxDiskCache := 200;
     cacheExpiry := 24 * 60 * 60 * 1000 |}.

Record Stats := {
  memoryHits : nat; diskHits : nat; s3Hits : nat; misses : nat; totalRequests : nat }.

Definition stats0 : Stats :=
  {| memoryHits := 0; diskHits := 0; s3Hits := 0; misses := 0; totalRequests := 0 |}.

(** Requests the code sends to the AWS services. *)
Inductive Event :=
| PollySynthesize (text voiceId : string) (options : Options)
| S3Head (bucket key : string)
| S3GetObject (bucket key : string)
| S3PutObject (bucket key : string).

(** The mutable state: the two [Map]s, the files of the disk cache
    directory, the statistics, and the requests sent so far (latest
    first). *)
Record Cache := {
  memoryCache : JSMap.t MemEntry;
  diskCache : JSMap.t Z;
  mp3Files : JSMap.t buffer;
  metaFiles : JSMap.t MetaFile;
  stats : Stats;
  events : list Event }.

Definition initial_cache : Cache :=
  {| memoryCache := JSMap.empty; diskCache := JSMap.empty; mp3Files := JSMap.empty;
     metaFiles := JSMap.empty; stats := stats0; events := [] |}.

Definition set_memory (m : JSMap.t MemEntry) (c : Cache) : Cache :=
  {| memoryCache := m; diskCache := diskCache c; mp3Files := mp3Files c;
     metaFiles := metaFiles c; stats := stats c; events := events c |}.
Definition set_diskIndex (m : JSMap.t Z) (c : Cache) : Cache :=
  {| memoryCache := memoryCache c; diskCache := m; mp3Files := mp3Files c;
     metaFiles := metaFiles c; stats := stats c; events := events c |}.
Definition set_files (f : JSMap.t buffer) (g : JSMap.t MetaFile) (c : Cache) : Cache :=
  {| memoryCache := memoryCache c; diskCache := diskCache c; mp3Files := f;
     metaFiles := g; stats := stats c; events := events c |}.
Definition set_stats (s : Stats) (c : Cache) : Cache :=
  {| memoryCache := memoryCache c; diskCache := diskCache c; mp3Files := mp3Files c;
     metaFiles := metaFiles c; stats := s; events := events c |}.
Definition emit (e : Event) (c : Cache) : Cache :=
  {| memoryCache := memoryCache c; diskCache := diskCache c; mp3Files := mp3Files c;
     metaFiles := metaFiles c; stats := stats c; events := e :: events c |}.

Definition bump_memoryHits (s : Stats) : Stats :=
  {| memoryHits := S (memoryHits s); diskHits := diskHits s; s3Hits := s3Hits s;
     misses := misses s; totalRequests := totalRequests s |}.
Definition bump_diskHits (s : Stats) : Stats :=
  {| memoryHits := memoryHits s; diskHits := S (diskHits s); s3Hits := s3Hits s;
     misses := misses s; totalRequests := totalRequests s |}.
Definition bump_s3Hits (s : Stats) : Stats :=
  {| memoryHits := memoryHits s; diskHits := diskHits s; s3Hits := S (s3Hits s);
     misses := misses s; totalRequests := totalRequests s |}.
Definition bump_misses (s : Stats) : Stats :=
  {| memoryHits := memoryHits s; diskHits := diskHits s; s3Hits := s3Hits s;
     misses := S (misses s); totalRequests := totalRequests s |}.
Definition bump_totalRequests (s : Stats) : Stats :=
  {| memoryHits := memoryHits s; diskHits := diskHits s; s3Hits := s3Hits s;
     misses := misses s; totalRequests := S (totalRequests s) |}.

(** A settled promise: a value or a thrown error (its [name]). *)
Inductive Result (A : Type) := Ok (a : A) | Err (name : string).
Arguments Ok {A} a.
Arguments Err {A} name.

(** What the services answer.  [s3Head] gives the [LastModified] time in
    milliseconds; [s3Get] the concatenated body, or the error raised by
    the request or while reading the stream; [writable p] says whether
    [fs.writeFileSync] on the file [p] succeeds, and [unlinkable p] whether
    [fs.unlinkSync] on the existing file [p] does. *)
Record Env := {
  now : Z;
  polly : string -> string -> Options -> Result buffer;
  s3Head : string -> string -> Result Z;
  s3Get : string -> string -> Result buffer;
  writable : string -> bool;
  unlinkable : string -> bool }.

(** [process.env] *)
Definition ProcessEnv := JSMap.t string.

(** ** Memory tier *)

(** [checkMemoryCache(cacheKey)] *)
Definition checkMemoryCache (cfg : Config) (now : Z) (cacheKey : string) (c : Cache)
  : option buffer * Cache :=
  match JSMap.get cacheKey (memoryCache c) with
  | Some cached =>
      if now - timestamp cached <? cacheExpiry cfg then (Some (data cached), c)
      else (None, set_memory (JSMap.delete cacheKey (memoryCache c)) c)
  | None => (None, c)
  end.

(** [storeInMemoryCache(cacheKey, audioBuffer)] *)
Definition storeInMemoryCache (cfg : Config) (now : Z) (cacheKey : string)
  (audioBuffer : buffer) (c : Cache) : Cache :=
  let m := memoryCache c in
  let m1 := if (maxMemoryCache cfg <=? JSMap.size m)%nat then JSMap.delete_first m else m in
  set_memory (JSMap.set cacheKey {| data := audioBuffer; timestamp := now |} m1) c.

(** ** Disk tier *)

Definition mp3Path (cacheKey : string) : string := (cacheKey ++ ".mp3")%string.
Definition metaPath (cacheKey : string) : string := (cacheKey ++ ".meta")%string.

(** [checkDiskCache(cacheKey)]; a [JSON.parse] error is caught and read as
    a miss.  This definition takes the [fs.readFileSync] calls, and for an
    expired entry both [fs.unlinkSync] calls, to succeed.  In the source a
    throwing read or unlink is also caught and read as a miss, but it
    leaves the files that were not yet deleted in place. *)
Definition checkDiskCache (cfg : Config) (now : Z) (cacheKey : string) (c : Cache)
  : option buffer * Cache :=
  match JSMap.get cacheKey (mp3Files c), JSMap.get cacheKey (metaFiles c) with
  | Some audio, Some meta =>
      match meta with
      | MetaUnparsable => (None, c)
      | Meta ts _ _ =>
          if now - ts >? cacheExpiry cfg
          then (None, set_files (JSMap.delete cacheKey (mp3Files c))
                                (JSMap.delete cacheKey (metaFiles c)) c)
          else (Some audio, c)
      end
  | _, _ => (None, c)
  end.

(** [removeDiskCacheEntry(cacheKey)]; [None] is the key [undefined], whose
    files are named [undefined.mp3] and [undefined.meta].  An [unlinkSync]
    that throws ends the [try] block: the error is caught and logged, and
    what follows it (the other file, [this.diskCache.delete]) is skipped. *)
Definition removeDiskCacheEntry (unlinkable : string -> bool) (cacheKey : option string)
  (c : Cache) : Cache :=
  let name := match cacheKey with Some k => k | None => "undefined" end in
  if JSMap.has name (mp3Files c) && negb (unlinkable (mp3Path name)) then c else
  let c1 := set_files (JSMap.delete name (mp3Files c)) (metaFiles c) c in
  if JSMap.has name (metaFiles c1) && negb (unlinkable (metaPath name)) then c1 else
  let c2 := set_files (mp3Files c1) (JSMap.delete name (metaFiles c1)) c1 in
  match cacheKey with
  | Some k => set_diskIndex (JSMap.delete k (diskCache c2)) c2
  | None => c2
  end.

(** [storeToDiskCache(cacheKey, audioBuffer)]; a write that throws ends the
    method, and the error is caught and logged. *)
Definition storeToDiskCache (cfg : Config) (env : Env) (cacheKey : string)
  (audioBuffer : buffer) (c : Cache) : Cache :=
  let c1 := if (maxDiskCache cfg <=? JSMap.size (diskCache c))%nat
            then removeDiskCacheEntry (unlinkable env) (JSMap.first_key (diskCache c)) c
            else c in
  if writable env (mp3Path cacheKey) then
    let c2 := set_files (JSMap.set cacheKey audioBuffer (mp3Files c1)) (metaFiles c1) c1 in
    if writable env (metaPath cacheKey) then
      let meta := Meta (now env) (Z.of_nat (List.length audioBuffer)) cacheKey in
      let c3 := set_files (mp3Files c2) (JSMap.set cacheKey meta (metaFiles c2)) c2 in
      set_diskIndex (JSMap.set cacheKey (now env) (diskCache c3)) c3
    else c2
  else c1.

(** ** Remote (S3) tier *)

(** [process.env.AUDIO_CACHE_BUCKET || 'safety-alert-audio-cache'] *)
Definition bucketName (penv : ProcessEnv) : string :=
  or_default (JSMap.get "AUDIO_CACHE_BUCKET" penv) "safety-alert-audio-cache".

Definition s3ObjectKey (cacheKey : string) : string :=
  ("audio-cache/" ++ cacheKey ++ ".mp3")%string.

(** [checkS3Cache(cacheKey)]: every error, [NoSuchKey]/[NotFound] or not,
    ends in [return null]. *)
Definition checkS3Cache (cfg : Config) (penv : ProcessEnv) (env : Env)
  (cacheKey : string) (c : Cache) : option buffer * Cache :=
  let bucket := bucketName penv in
  let key := s3ObjectKey cacheKey in
  let c1 := emit (S3Head bucket key) c in
  match s3Head env bucket key with
  | Err _ => (None, c1)
  | Ok lastModified =>
      if now env - lastModified >? cacheExpiry cfg then (None, c1)
      else
        let c2 := emit (S3GetObject bucket key) c1 in
        match s3Get env bucket key with
        | Err _ => (None, c2)
        | Ok body => (Some body, c2)
        end
  end.

(** [storeToS3Cache(cacheKey, audioBuffer)]: the request is sent; its
    outcome is caught inside the method and never reaches the caller. *)
Definition storeToS3Cache (penv : ProcessEnv) (cacheKey : string) (c : Cache) : Cache :=
  emit (S3PutObject (bucketName penv) (s3ObjectKey cacheKey)) c.

(** [storeInAllCaches(cacheKey, audioBuffer)] *)
Definition storeInAllCaches (cfg : Config) (penv : ProcessEnv) (env : Env)
  (cacheKey : string) (audioBuffer : buffer) (c : Cache) : Cache :=
  let c1 := storeInMemoryCache cfg (now env) cacheKey audioBuffer c in
  let c2 := storeToDiskCache cfg env cacheKey audioBuffer c1 in
  if s3Cache cfg then storeToS3Cache penv cacheKey c2 else c2.

(** ** [getAudioWithCache] *)

Record Request := { text : string; voiceId : string; options : Options }.

(** The object returned to the caller. *)
Record Response := {
  audioBuffer : buffer; source : string; cacheKey : string; fromCache : bool }.

(** [getAudioWithCache] is an [async] function; its body runs in segments
    separated by its [await]s.  A [Phase] is the point where a call
    resumes, with the values it holds there:
    - [Start]: before the call runs;
    - [AfterDisk]: at [await this.checkDiskCache(...)] (line 88);
    - [AfterS3]: at [await this.checkS3Cache(...)] (line 106);
    - [AfterGen]: at [await this.generatePollyAudio(...)] (line 128);
    - [Done]: the call has returned or thrown.
    The awaits inside [checkS3Cache], [generatePollyAudio] and
    [storeToDiskCache] are not resumption points here: each of those calls
    runs within one segment. *)
Inductive Phase :=
| Start (r : Request)
| AfterDisk (r : Request) (key : string) (diskResult : option buffer)
| AfterS3 (r : Request) (key : string) (s3Result : option buffer)
| AfterGen (r : Request) (key : string) (generated : Result buffer)
| Done (result : Result Response).

Section GetAudio.
Variable cfg : Config.
Variable penv : ProcessEnv.
Variable env : Env.

(** [this.stats.misses++] and the call of [generatePollyAudio], which
    sends the [SynthesizeSpeechCommand]. *)
Definition begin_generation (r : Request) (key : string) (c : Cache) : Phase * Cache :=
  let c1 := set_stats (bump_misses (stats c)) c in
  let c2 := emit (PollySynthesize (text r) (voiceId r) (options r)) c1 in
  (AfterGen r key (polly env (text r) (voiceId r) (options r)), c2).

(** One segment of a call. *)
Definition step (p : Phase) (c : Cache) : Phase * Cache :=
  match p with
  | Start r =>
      let c1 := set_stats (bump_totalRequests (stats c)) c in
      let key := generateCacheKey (text r) (voiceId r) (options r) in
      let '(memoryResult, c2) := checkMemoryCache cfg (now env) key c1 in
      match memoryResult with
      | Some b =>
          (Done (Ok {| audioBuffer := b; source := "memory"; cacheKey := key;
                       fromCache := true |}),
           set_stats (bump_memoryHits (stats c2)) c2)
      | None =>
          let '(diskResult, c3) := checkDiskCache cfg (now env) key c2 in
          (AfterDisk r key diskResult, c3)
      end
  | AfterDisk r key (Some b) =>
      let c1 := set_stats (bump_diskHits (stats c)) c in
      let c2 := storeInMemoryCache cfg (now env) key b c1 in
      (Done (Ok {| audioBuffer := b; source := "disk"; cacheKey := key;
                   fromCache := true |}), c2)
  | AfterDisk r key None =>
      if s3Cache cfg then
        let '(s3Result, c1) := checkS3Cache cfg penv env key c in
        (AfterS3 r key s3Result, c1)
      else begin_generation r key c
  | AfterS3 r key (Some b) =>
      let c1 := set_stats (bump_s3Hits (stats c)) c in
      let c2 := storeInMemoryCache cfg (now env) key b c1 in
      let c3 := storeToDiskCache cfg env key b c2 in
      (Done (Ok {| audioBuffer := b; source := "s3"; cacheKey := key;
                   fromCache := true |}), c3)
  | AfterS3 r key None => begin_generation r key c
  | AfterGen r key (Ok b) =>
      let c1 := storeInAllCaches cfg penv env key b c in
      (Done (Ok {| audioBuffer := b; source := "generated"; cacheKey := key;
                   fromCache := false |}), c1)
  | AfterGen r key (Err e) => (Done (Err e), c)
  | Done res => (Done res, c)
  end.

Fixpoint run (fuel : nat) (p : Phase) (c : Cache) : Phase * Cache :=
  match fuel with
  | O => (p, c)
  | S f => let '(p', c') := step p c in run f p' c'
  end.

Definition result_of (p : Phase) : Result Response :=
  match p with Done res => res | _ => Err "pending" end.

(** A call run alone, segment after segment: four segments always reach
    [Done]. *)
Definition getAudioWithCache (r : Request) (c : Cache) : Result Response * Cache :=
  let '(p, c') := run 4 (Start r) c in (result_of p, c').

(** ** Interleaved calls *)

Fixpoint replace_nth {A} (i : nat) (x : A) (l : list A) : list A :=
  match l, i with
  | [], _ => []
  | _ :: l', O => x :: l'
  | y :: l', S i' => y :: replace_nth i' x l'
  end.

(** Concurrent calls sharing one [SmartAudioCache]: the scheduler resumes
    call [i] for each index [i] of the schedule, in order; a call that is
    [Done] stays as it is. *)
Fixpoint run_sched (sched : list nat) (c : Cache) (ps : list Phase)
  : Cache * list Phase :=
  match sched with
  | [] => (c, ps)
  | i :: sched' =>
      match nth_error ps i with
      | Some p => let '(p', c') := step p c in run_sched sched' c' (replace_nth i p' ps)
      | None => run_sched sched' c ps
      end
  end.
End GetAudio.

Fixpoint count_polly (es : list Event) : nat :=
  match es with
  | [] => O
  | PollySynthesize _ _ _ :: es' => S (count_polly es')
  | _ :: es' => count_polly es'
  end.

(** Every call resumed once per round, [rounds] times. *)
Definition round_robin (n rounds : nat) : list nat := List.concat (repeat (seq 0 n) rounds).

(** ** Scenarios *)

Definition req_emergency : Request :=
  {| text := "Emergency alert"; voiceId := "Joanna"; options := no_options |}.

Definition env_abc (t : Z) : Env :=
  {| now := t; polly := fun _ _ _ => Ok [97; 98; 99];
     s3Head := fun _ _ => Err "NotFound"; s3Get := fun _ _ => Err "NoSuchKey";
     writable := fun _ => true; unlinkable := fun _ => true |}.

Definition penv0 : ProcessEnv := JSMap.empty.

(** ** Maintenance of the cache *)


(** [s.endsWith(suffix)] *)
Definition endsWith (s suffix : string) : bool :=
  String.eqb (substring (String.length s - String.length suffix) (String.length suffix) s) suffix.

(** [s.replace(pattern, replacement)] with a string pattern: the first
    occurrence only. *)
Definition replace_first (pattern replacement s : string) : string :=
  match String.index 0 pattern s with
  | Some i =>
      (substring 0 i s ++ replacement ++
       substring (i + String.length pattern) (String.length s - (i + String.length pattern)) s)%string
  | None => s
  end.

(** The loop of [loadDiskCacheIndex] over the names [fs.readdirSync]
    lists.  The file [<k>.meta] is the entry [k] of [metaFiles]; a read or
    a [JSON.parse] that throws leaves the loop, the error being caught
    after it. *)
Fixpoint load_meta_files (files : list string) (c : Cache) : Cache :=
  match files with
  | [] => c
  | file :: files' =>
      if endsWith file ".meta" then
        let cacheKey := replace_first ".meta" EmptyString file in
        match JSMap.get (substring 0 (String.length file - 5) file) (metaFiles c) with
        | Some (Meta ts _ _) =>
            load_meta_files files' (set_diskIndex (JSMap.set cacheKey ts (diskCache c)) c)
        | _ => c
        end
      else load_meta_files files' c
  end.

(** [loadDiskCacheIndex()]: [None] when the directory does not exist,
    otherwise the names it lists, in the order [fs.readdirSync] gives. *)
Definition loadDiskCacheIndex (listing : option (list string)) (c : Cache) : Cache :=
  match listing with
  | None => c
  | Some files => load_meta_files files c
  end.

(** ** [preCacheCommonAlerts] *)

Definition commonAlerts : list string :=
  ["Emergency alert activated"; "Weather warning issued"; "Traffic alert in your area";
   "System maintenance notification"; "Alert acknowledged"; "Emergency services contacted"].

Definition voices : list string := ["Joanna"; "Matthew"; "Amy"].

(** The calls, one per alert and voice, alert by alert; the [i]-th call
    meets the services as [envs i] answers, and a call that throws is
    caught. *)
Fixpoint preCache_from (cfg : Config) (penv : ProcessEnv) (envs : nat -> Env) (i : nat)
  (jobs : list (string * string)) (c : Cache) : Cache :=
  match jobs with
  | [] => c
  | (alert, voice) :: jobs' =>
      let r := {| text := alert; voiceId := voice; options := no_options |} in
      preCache_from cfg penv envs (S i) jobs' (snd (getAudioWithCache cfg penv (envs i) r c))
  end.

Definition preCacheCommonAlerts (cfg : Config) (penv : ProcessEnv) (envs : nat -> Env)
  (c : Cache) : Cache :=
  preCache_from cfg penv envs 0 (list_prod commonAlerts voices) c.

(** ** [FailoverMonitoringService] *)

(** A JavaScript number as the failure counters hold it: [undefined + 1]
    is [NaN]. *)
Inductive Num := Fin (n : nat) | NaN.

Definition num_succ (x : option Num) : Num :=
  match x with Some (Fin n) => Fin (S n) | _ => NaN end.

Definition num_geb (x : Num) (n : nat) : bool :=
  match x with Fin m => (n <=? m)%nat | NaN => false end.

Definition failoverThreshold : nat := 3.

Record Monitor := {
  consecutiveFailures : JSMap.t Num;
  serviceStatus : JSMap.t string;
  procEnv : ProcessEnv;
  failovers : list string  (** services passed to [triggerFailover], latest first *) }.

(** What the probes of one [performHealthCheck] round answer
    ([result.healthy] per service), whether the fallback-region Polly
    request of [pollyFailover] succeeds, and whether constructing the
    fallback-region client of [transcribeFailover] does. *)
Record HealthEnv := {
  probe : string -> bool; fallbackPollyOk : bool; fallbackTranscribeOk : bool }.

Definition tracked_services : list string :=
  ["polly"; "transcribe"; "s3-cache"; "cloudfront"; "websocket"; "kafka"].

(** [initializeServices]: every status 'healthy', every counter 0. *)
Definition initial_monitor (penv : ProcessEnv) : Monitor :=
  {| consecutiveFailures := map (fun s => (s, Fin 0)) tracked_services;
     serviceStatus := map (fun s => (s, "healthy")) tracked_services;
     procEnv := penv; failovers := [] |}.

(** [s3Failover]: writes two [process.env] entries. *)
Definition s3Failover (penv : ProcessEnv) : ProcessEnv :=
  JSMap.set "CACHE_MODE" "memory_only" (JSMap.set "USE_S3_CACHE" "false" penv).

Definition pollyFailover (ok : bool) (penv : ProcessEnv) : ProcessEnv :=
  if ok then JSMap.set "POLLY_FALLBACK_REGION" "us-east-1" penv
  else JSMap.set "POLLY_FALLBACK_MODE" "cache_only" penv.

(** [transcribeFailover]: [ok] says whether [new TranscribeStreamingClient]
    returns; if it throws, the [catch] block disables voice commands. *)
Definition transcribeFailover (ok : bool) (penv : ProcessEnv) : ProcessEnv :=
  if ok then JSMap.set "TRANSCRIBE_FALLBACK_REGION" "us-east-1" penv
  else JSMap.set "VOICE_COMMANDS_ENABLED" "false" penv.

Definition cloudFrontFailover (penv : ProcessEnv) : ProcessEnv :=
  JSMap.set "AUDIO_DELIVERY_MODE" "direct_s3" (JSMap.set "USE_CLOUDFRONT" "false" penv).

(** [triggerFailover(service)]: the action of the service's entry in
    [failoverActions], then the SNS alert and the metric, whose failures
    are caught. *)
Definition triggerFailover (henv : HealthEnv) (service : string) (m : Monitor) : Monitor :=
  let act :=
    if String.eqb service "polly" then pollyFailover (fallbackPollyOk henv)
    else if String.eqb service "transcribe" then transcribeFailover (fallbackTranscribeOk henv)
    else if String.eqb service "s3-cache" then s3Failover
    else if String.eqb service "cloudfront" then cloudFrontFailover
    else fun p => p in
  {| consecutiveFailures := consecutiveFailures m; serviceStatus := serviceStatus m;
     procEnv := act (procEnv m); failovers := service :: failovers m |}.

Definition set_counter (s : string) (n : Num) (m : Monitor) : Monitor :=
  {| consecutiveFailures := JSMap.set s n (consecutiveFailures m);
     serviceStatus := serviceStatus m; procEnv := procEnv m; failovers := failovers m |}.

Definition set_status (s : string) (st : string) (m : Monitor) : Monitor :=
  {| consecutiveFailures := consecutiveFailures m;
     serviceStatus := JSMap.set s st (serviceStatus m);
     procEnv := procEnv m; failovers := failovers m |}.

(** The body of the loop of [performHealthCheck] for one service. *)
Definition updateService (henv : HealthEnv) (m : Monitor) (service : string) : Monitor :=
  if probe henv service then
    set_status service "healthy" (set_counter service (Fin 0) m)
  else
    let failures := num_succ (JSMap.get service (consecutiveFailures m)) in
    let m1 := set_counter service failures m in
    if num_geb failures failoverThreshold then
      triggerFailover henv service (set_status service "failed" m1)
    else set_status service "degraded" m1.

Definition checked_services : list string := ["polly"; "transcribe"; "s3-cache"; "cloudfront"].

(** [performHealthCheck()] *)
Definition performHealthCheck (henv : HealthEnv) (m : Monitor) : Monitor :=
  fold_left (updateService henv) checked_services m.

(** Rounds of the monitoring interval, one probe answer set per round. *)
Fixpoint health_rounds (rounds : list HealthEnv) (m : Monitor) : Monitor :=
  match rounds with
  | [] => m
  | h :: rs => health_rounds rs (performHealthCheck h m)
  end.

Definition all_fail : HealthEnv :=
  {| probe := fun _ => false; fallbackPollyOk := true; fallbackTranscribeOk := true |}.
Definition all_ok : HealthEnv :=
  {| probe := fun _ => true; fallbackPollyOk := true; fallbackTranscribeOk := true |}.

(** The number of [triggerFailover] calls for one service. *)
Definition failover_count (s : string) (m : Monitor) : nat :=
  count_occ string_dec (failovers m) s.

(** ** The health checks *)

(** What the services answer to the probes of one round: whether the
    Polly [SynthesizeSpeech] request succeeds, whether constructing the
    Transcribe client succeeds, whether [HeadBucket] on a bucket succeeds,
    the HTTP status of the [HEAD] request to a CDN domain (or its error),
    whether the fallback-region Polly request of [pollyFailover] succeeds,
    and whether constructing the fallback-region Transcribe client of
    [transcribeFailover] succeeds.  A failing [recordMetric] is caught
    inside it. *)
Record ProbeAnswers := {
  pollyProbeOk : bool; transcribeClientOk : bool; headBucketOk : string -> bool;
  cdnFetch : string -> Result Z; fallbackOk : bool; fallbackClientOk : bool }.

(** [checkS3Health()] *)
Definition checkS3Health (penv : ProcessEnv) (a : ProbeAnswers) : bool :=
  headBucketOk a (bucketName penv).

(** [checkCloudFrontHealth()]: without a (non-empty) [CLOUDFRONT_DOMAIN]
    it answers healthy; otherwise healthy iff the status is below 500. *)
Definition checkCloudFrontHealth (penv : ProcessEnv) (a : ProbeAnswers) : bool :=
  match JSMap.get "CLOUDFRONT_DOMAIN" penv with
  | None => true
  | Some d =>
      if String.eqb d EmptyString then true
      else match cdnFetch a d with Ok status => status <? 500 | Err _ => false end
  end.

(** The [switch] of [performHealthCheck]: [result.healthy] per checked
    service.  (No other service reaches it.) *)
Definition healthCheckResult (penv : ProcessEnv) (a : ProbeAnswers) (service : string) : bool :=
  if String.eqb service "polly" then pollyProbeOk a
  else if String.eqb service "transcribe" then transcribeClientOk a
  else if String.eqb service "s3-cache" then checkS3Health penv a
  else if String.eqb service "cloudfront" then checkCloudFrontHealth penv a
  else false.

(** The probe answers of a round whose checks read [process.env] as
    [penv].  The failover actions write none of [AUDIO_CACHE_BUCKET] and
    [CLOUDFRONT_DOMAIN] (see [triggerFailover_probe_keys]), so [penv] can
    be read at the start of the round. *)
Definition health_env (penv : ProcessEnv) (a : ProbeAnswers) : HealthEnv :=
  {| probe := healthCheckResult penv a; fallbackPollyOk := fallbackOk a;
     fallbackTranscribeOk := fallbackClientOk a |}.

(** The rounds of [startHealthMonitoring]'s interval. *)
Fixpoint monitoring_rounds (rounds : list ProbeAnswers) (m : Monitor) : Monitor :=
  match rounds with
  | [] => m
  | a :: rs => monitoring_rounds rs (performHealthCheck (health_env (procEnv m) a) m)
  end.

(** ** Sequences of memory-tier operations *)

Inductive MemOp :=
| MemPut (k : string) (b : buffer) (t : Z)  (** [storeInMemoryCache] at time [t] *)
| MemGet (k : string) (t : Z).              (** [checkMemoryCache] at time [t] *)

Definition mem_op (cfg : Config) (c : Cache) (op : MemOp) : Cache :=
  match op with
  | MemPut k b t => storeInMemoryCache cfg t k b c
  | MemGet k t => snd (checkMemoryCache cfg t k c)
  end.

Definition run_mem_ops (cfg : Config) (ops : list MemOp) (c : Cache) : Cache :=
  fold_left (mem_op cfg) ops c.

Definition with_capacity (n : nat) (cfg : Config) : Config :=
  {| s3Cache := s3Cache cfg; maxMemoryCache := n; maxDiskCache := maxDiskCache cfg;
     cacheExpiry := cacheExpiry cfg |}.

(** ** Helpers of the statements *)

(** The object [getAudioWithCache] resolves to. *)
Definition response (b : buffer) (src : string) (key : string) (fc : bool) : Response :=
  {| audioBuffer := b; source := src; cacheKey := key; fromCache := fc |}.

(** The same services, with every S3 object absent ([NotFound]). *)
Definition s3_object_absent (env : Env) : Env :=
  {| now := now env; polly := polly env; s3Head := fun _ _ => Err "NotFound";
     s3Get := s3Get env; writable := writable env; unlinkable := unlinkable env |}.

(** One round of a scheduler: each call, in order, resumed once. *)
Fixpoint step_all cfg penv env (c : Cache) (ps : list Phase) : Cache * list Phase :=
  match ps with
  | [] => (c, [])
  | p :: ps' =>
      let '(p', c1) := step cfg penv env p c in
      let '(c2, ps'') := step_all cfg penv env c1 ps' in (c2, p' :: ps'')
  end.

(** The S3 read requests ([HeadObject], [GetObject]) sent. *)
Fixpoint count_s3_reads (es : list Event) : nat :=
  match es with
  | [] => O
  | S3Head _ _ :: es' | S3GetObject _ _ :: es' => S (count_s3_reads es')
  | _ :: es' => count_s3_reads es'
  end.

(** Every S3 object exists, was last modified at time 0, and reads as
    [[1; 2; 3]]. *)
Definition env_s3_fresh (t : Z) : Env :=
  {| now := t; polly := fun _ _ _ => Ok [97; 98; 99];
     s3Head := fun _ _ => Ok 0; s3Get := fun _ _ => Ok [1; 2; 3];
     writable := fun _ => true; unlinkable := fun _ => true |}.

(** S3 refuses every request. *)
Definition env_s3_denied (t : Z) : Env :=
  {| now := t; polly := fun _ _ _ => Ok [97; 98; 99];
     s3Head := fun _ _ => Err "AccessDenied"; s3Get := fun _ _ => Err "AccessDenied";
     writable := fun _ => true; unlinkable := fun _ => true |}.

(** The counters of [this.stats] that count an outcome. *)
Definition stats_sum (s : Stats) : nat :=
  (memoryHits s + diskHits s + s3Hits s + misses s)%nat.

(** A call suspended at the [await] of [checkDiskCache] or of
    [checkS3Cache]: its outcome (a disk hit, an S3 hit or a miss) is not
    counted yet. *)
Definition owed (p : Phase) : nat :=
  match p with AfterDisk _ _ _ | AfterS3 _ _ _ => 1 | _ => 0 end%nat.

Fixpoint owed_all (ps : list Phase) : nat :=
  match ps with [] => O | p :: ps' => (owed p + owed_all ps')%nat end.

(** How far a call has run. *)
Definition rank (p : Phase) : nat :=
  match p with Start _ => 0 | AfterDisk _ _ _ => 1 | AfterS3 _ _ _ => 2
          | AfterGen _ _ _ => 3 | Done _ => 4 end%nat.


(** The bodies of the two loops of [cleanupExpiredEntries], one entry at a
    time. *)
Section Sweeps.
Variables (cfg : Config) (t : Z) (unlinkable : string -> bool).


End Sweeps.

(** The meta file [file] of a listing parses (its [JSON.parse] does not
    throw). *)
Definition meta_parses (c : Cache) (file : string) : bool :=
  match JSMap.get (substring 0 (String.length file - 5) file) (metaFiles c) with
  | Some (Meta _ _ _) => true
  | _ => false
  end.

(** The key of a job [(alert, voice)] of [preCacheCommonAlerts]. *)
Definition job_key (job : string * string) : string :=
  generateCacheKey (fst job) (snd job) no_options.

Fixpoint nodupb (l : list string) : bool :=
  match l with
  | [] => true
  | x :: l' => negb (existsb (String.eqb x) l') && nodupb l'
  end.



(** A cache directory with three meta files, the second one corrupt. *)
Definition cache_three_metas : Cache :=
  set_files [] [("a", Meta 1 3 "a"); ("b", MetaUnparsable); ("c", Meta 2 3 "c")] initial_cache.

(** Every probe of a round fails. *)
Definition probes_all_down : ProbeAnswers :=
  {| pollyProbeOk := false; transcribeClientOk := false; headBucketOk := fun _ => false;
     cdnFetch := fun _ => Err "ECONNREFUSED"; fallbackOk := false; fallbackClientOk := true |}.

(** * Properties *)

(** ** Test vectors and a scenario *)

Example md5_empty : md5_hex "" = "d41d8cd98f00b204e9800998ecf8427e".
Proof. vm_compute. reflexivity. Qed.

Example md5_abc : md5_hex "abc" = "900150983cd24fb0d6963f7d28e17f72".
Proof. vm_compute. reflexivity. Qed.

(** U+00E9 is hashed as its two UTF-8 bytes C3 A9. *)
Example md5_e_acute : md5_hex (String (ascii_of_nat 233) EmptyString)
  = "66ddcd97cfdeabb2f6fb8a999b4bc76f".
Proof. vm_compute. reflexivity. Qed.

(** ['CAF\u00C9\u00A0'.trim().toLowerCase()] is ['caf\u00E9'], so the text
    gets the key of [JSON.stringify({text: 'caf\u00E9', voiceId: 'Joanna',
    engine: 'neural', format: 'mp3'})]. *)
Example key_latin1_text :
  let cafe_upper := ("CAF" ++ String (ascii_of_nat 201) (String (ascii_of_nat 160) EmptyString))%string in
  toLowerCase (trim cafe_upper) = ("caf" ++ String (ascii_of_nat 233) EmptyString)%string /\
  generateCacheKey cafe_upper "Joanna" no_options = "c621cc0801db07d790c9060d43c128b5".
Proof. vm_compute. split; reflexivity. Qed.

Example key_empty_text :
  generateCacheKey "" "Joanna" no_options = "76a6d24abc79b2ad3d28c30584bf6cb8".
Proof. vm_compute. reflexivity. Qed.

Example key_emergency :
  generateCacheKey "  Emergency ALERT " "Joanna" no_options
  = "1f8104e0401776a8d65ed9204ce519a5".
Proof. vm_compute. reflexivity. Qed.

Example scenario_generated_then_memory :
  let '(r1, c1) := getAudioWithCache constructor_config penv0 (env_abc 1000) req_emergency initial_cache in
  let '(r2, _) := getAudioWithCache constructor_config penv0 (env_abc 2000) req_emergency c1 in
  (match r1 with Ok x => Some (audioBuffer x, source x) | Err _ => None end,
   match r2 with Ok x => Some (audioBuffer x, source x) | Err _ => None end)
  = (Some ([97; 98; 99], "generated"), Some ([97; 98; 99], "memory")).
Proof. vm_compute. reflexivity. Qed.

(** ** The [Map] model *)

Module JSMapFacts.
Import JSMap.

Section Facts.
Context {V : Type}.
Implicit Types (m : t V) (k : string) (v : V).

Lemma get_app k m1 m2 :
  get k (m1 ++ m2) = match get k m1 with Some v => Some v | None => get k m2 end.
Proof.
  induction m1 as [|[k' v'] m1 IH]; cbn; [reflexivity|].
  destruct (String.eqb k' k); [reflexivity | exact IH].
Qed.

Lemma get_map_upd k v k2 m :
  get k2 (map (upd k v) m)
  = if String.eqb k k2 then option_map (fun _ => v) (get k2 m) else get k2 m.
Proof.
  induction m as [|[k' v'] m IH]; cbn.
  - destruct (String.eqb k k2); reflexivity.
  - destruct (String.eqb_spec k' k) as [->|Hk']; cbn.
    + destruct (String.eqb_spec k k2); [reflexivity | exact IH].
    + destruct (String.eqb_spec k' k2) as [->|Hk2].
      * destruct (String.eqb_spec k k2); [congruence | reflexivity].
      * exact IH.
Qed.

Lemma get_set k v k2 m :
  get k2 (set k v m) = if String.eqb k k2 then Some v else get k2 m.
Proof.
  unfold set, has. destruct (get k m) eqn:E.
  - rewrite get_map_upd. destruct (String.eqb_spec k k2) as [<-|]; [|reflexivity].
    rewrite E. reflexivity.
  - rewrite get_app. destruct (String.eqb_spec k k2) as [<-|Hk].
    + rewrite E. cbn. rewrite String.eqb_refl. reflexivity.
    + destruct (get k2 m); [reflexivity|]. cbn.
      destruct (String.eqb_spec k k2); [congruence | reflexivity].
Qed.

Lemma get_set_eq k v m : get k (set k v m) = Some v.
Proof. rewrite get_set, String.eqb_refl. reflexivity. Qed.

Lemma get_delete k k2 m :
  get k2 (delete k m) = if String.eqb k k2 then None else get k2 m.
Proof.
  unfold delete.
  induction m as [|[k' v'] m IH]; cbn.
  - destruct (String.eqb k k2); reflexivity.
  - destruct (String.eqb_spec k' k) as [->|Hk'].
    + cbn. rewrite IH. destruct (String.eqb k k2); reflexivity.
    + cbn.
      destruct (String.eqb_spec k' k2) as [->|Hk2].
      * destruct (String.eqb_spec k k2); [congruence | reflexivity].
      * exact IH.
Qed.

Lemma size_set_le k v m : (size (set k v m) <= S (size m))%nat.
Proof.
  unfold size, set. destruct (has k m).
  - rewrite length_map. lia.
  - rewrite length_app. cbn. lia.
Qed.

Lemma size_delete_le k m : (size (delete k m) <= size m)%nat.
Proof. unfold size, delete. apply filter_length_le. Qed.

Lemma size_delete_first m : m <> [] -> (S (size (delete_first m)) <= size m)%nat.
Proof.
  destruct m as [|[k v] m]; [congruence|]. intros _.
  unfold delete_first, first_key, delete, size. cbn.
  rewrite String.eqb_refl. cbn. pose proof (filter_length_le
    (fun '(k', _) => negb (String.eqb k' k)) m). lia.
Qed.
End Facts.
End JSMapFacts.

(** ** Memory tier *)

Section MemoryTier.
Import JSMapFacts.

Lemma memoryCache_set_memory m c : memoryCache (set_memory m c) = m.
Proof. reflexivity. Qed.

Lemma storeInMemoryCache_size cfg t k b c :
  (0 < maxMemoryCache cfg)%nat ->
  (JSMap.size (memoryCache c) <= maxMemoryCache cfg)%nat ->
  (JSMap.size (memoryCache (storeInMemoryCache cfg t k b c)) <= maxMemoryCache cfg)%nat.
Proof.
  intros Hpos Hle. unfold storeInMemoryCache. rewrite memoryCache_set_memory.
  destruct (Nat.leb_spec (maxMemoryCache cfg) (JSMap.size (memoryCache c))) as [Hfull|Hroom].
  - assert (Hne : memoryCache c <> []).
    { intros E. unfold JSMap.size in Hfull. rewrite E in Hfull. cbn in Hfull. lia. }
    pose proof (size_delete_first (memoryCache c) Hne).
    pose proof (size_set_le k {| data := b; timestamp := t |}
                  (JSMap.delete_first (memoryCache c))). lia.
  - pose proof (size_set_le k {| data := b; timestamp := t |} (memoryCache c)). lia.
Qed.

Lemma checkMemoryCache_size cfg t k c :
  (JSMap.size (memoryCache (snd (checkMemoryCache cfg t k c)))
   <= JSMap.size (memoryCache c))%nat.
Proof.
  unfold checkMemoryCache. destruct (JSMap.get k (memoryCache c)) as [e|]; [|cbn; lia].
  destruct (_ <? _); cbn; [lia|]. apply size_delete_le.
Qed.

Lemma run_mem_ops_size cfg ops c :
  (0 < maxMemoryCache cfg)%nat ->
  (JSMap.size (memoryCache c) <= maxMemoryCache cfg)%nat ->
  (JSMap.size (memoryCache (run_mem_ops cfg ops c)) <= maxMemoryCache cfg)%nat.
Proof.
  intros Hpos. unfold run_mem_ops. revert c.
  induction ops as [|op ops IH]; intros c Hle; cbn; [exact Hle|].
  apply IH. destruct op as [k b t|k t]; cbn.
  - apply storeInMemoryCache_size; assumption.
  - pose proof (checkMemoryCache_size cfg t k c). lia.
Qed.
End MemoryTier.

(** C5: from an empty memory tier, after any sequence of [storeInMemoryCache]
    (and [checkMemoryCache]) calls, [memoryCache.size] is at most
    [maxMemoryCache] (for a positive capacity, as the constructor's 50). *)
Theorem memoryCache_size_le_maxMemoryCache (cfg : Config) (ops : list MemOp) :
  (0 < maxMemoryCache cfg)%nat ->
  (JSMap.size (memoryCache (run_mem_ops cfg ops initial_cache)) <= maxMemoryCache cfg)%nat.
Proof.
  intros Hpos. apply run_mem_ops_size; [exact Hpos|]. cbn. lia.
Qed.

Lemma memoryCache_size_le_maxMemoryCache_witness :
  (0 < maxMemoryCache constructor_config)%nat /\
  le (JSMap.size (memoryCache (run_mem_ops constructor_config
        [MemPut "a" [1] 0; MemPut "b" [2] 1; MemGet "a" 2] initial_cache)))
     (maxMemoryCache constructor_config).
Proof.
  split; [simpl; lia|].
  apply (memoryCache_size_le_maxMemoryCache constructor_config
           [MemPut "a" [1] 0; MemPut "b" [2] 1; MemGet "a" 2]).
  simpl; lia.
Defined.

(** C2 (the code evaluated at the spec's scenario): with capacity 2, after
    [put A], [put B], a [get A] that hits, and [put C], the memory tier
    holds B and C: A, the first inserted, was evicted although it was the
    most recently read, since a hit does not move its entry. *)
Theorem memory_tier_evicts_first_inserted :
  let cfg := with_capacity 2 constructor_config in
  let cAB := run_mem_ops cfg [MemPut "A" [1] 0; MemPut "B" [2] 1] initial_cache in
  fst (checkMemoryCache cfg 2 "A" cAB) = Some [1] /\
  JSMap.keys (memoryCache (snd (checkMemoryCache cfg 2 "A" cAB))) = ["A"; "B"] /\
  JSMap.keys (memoryCache (run_mem_ops cfg [MemGet "A" 2; MemPut "C" [3] 3] cAB))
  = ["B"; "C"].
Proof. vm_compute. repeat split. Qed.

(** C6 (the code evaluated at the boundary [now - createdAt = TTL]): the
    memory tier reports a miss and deletes the entry, while the disk and S3
    tiers, which test [age > cacheExpiry], return the payload. *)
Theorem expiry_boundary_age_equals_ttl :
  let cfg := constructor_config in
  let ttl := cacheExpiry cfg in
  let env0 := {| now := 0; polly := fun _ _ _ => Err "unused";
                 s3Head := fun _ _ => Ok 0; s3Get := fun _ _ => Ok [1];
                 writable := fun _ => true; unlinkable := fun _ => true |} in
  let envT := {| now := ttl; polly := fun _ _ _ => Err "unused";
                 s3Head := fun _ _ => Ok 0; s3Get := fun _ _ => Ok [1];
                 writable := fun _ => true; unlinkable := fun _ => true |} in
  checkMemoryCache cfg ttl "k" (storeInMemoryCache cfg 0 "k" [1] initial_cache)
  = (None, set_memory [] (storeInMemoryCache cfg 0 "k" [1] initial_cache)) /\
  fst (checkDiskCache cfg ttl "k" (storeToDiskCache cfg env0 "k" [1] initial_cache))
  = Some [1] /\
  fst (checkS3Cache cfg penv0 envT "k" initial_cache) = Some [1].
Proof. vm_compute. repeat split. Qed.
(** ** [getAudioWithCache]: a sequential call *)

(** The statistics counters do not influence the tier lookups. *)
Lemma mem_set_stats cfg t k s c :
  checkMemoryCache cfg t k (set_stats s c)
  = (fst (checkMemoryCache cfg t k c), set_stats s (snd (checkMemoryCache cfg t k c))).
Proof.
  unfold checkMemoryCache. cbn. destruct (JSMap.get k (memoryCache c)); [|reflexivity].
  destruct (_ <? _); reflexivity.
Qed.

Lemma disk_set_stats cfg t k s c :
  checkDiskCache cfg t k (set_stats s c)
  = (fst (checkDiskCache cfg t k c), set_stats s (snd (checkDiskCache cfg t k c))).
Proof.
  unfold checkDiskCache. cbn.
  destruct (JSMap.get k (mp3Files c)), (JSMap.get k (metaFiles c)) as [[]|]; try reflexivity.
  destruct (_ >? _); reflexivity.
Qed.

Lemma s3_fst_indep cfg penv env k c c' :
  fst (checkS3Cache cfg penv env k c) = fst (checkS3Cache cfg penv env k c').
Proof.
  unfold checkS3Cache. destruct (s3Head env _ _); [|reflexivity].
  destruct (_ >? _); [reflexivity|]. destruct (s3Get env _ _); reflexivity.
Qed.


(** The result of a call, tier by tier. *)
Lemma getAudioWithCache_result cfg penv env r c :
  let key := generateCacheKey (text r) (voiceId r) (options r) in
  let mc := checkMemoryCache cfg (now env) key c in
  fst (getAudioWithCache cfg penv env r c) =
  match fst mc with
  | Some b => Ok (response b "memory" key true)
  | None =>
      match fst (checkDiskCache cfg (now env) key (snd mc)) with
      | Some b => Ok (response b "disk" key true)
      | None =>
          match (if s3Cache cfg then fst (checkS3Cache cfg penv env key c) else None) with
          | Some b => Ok (response b "s3" key true)
          | None =>
              match polly env (text r) (voiceId r) (options r) with
              | Ok b => Ok (response b "generated" key false)
              | Err e => Err e
              end
          end
      end
  end.
Proof.
  intros key mc. unfold getAudioWithCache, run. unfold step at 1.
  fold key. rewrite mem_set_stats. fold mc. cbv iota beta zeta.
  destruct (fst mc) as [b|] eqn:Hm.
  - reflexivity.
  - rewrite disk_set_stats. cbv iota beta zeta.
    destruct (fst (checkDiskCache cfg (now env) key (snd mc))) as [b|]; [reflexivity|].
    unfold step at 1. destruct (s3Cache cfg).
    + match goal with |- context [checkS3Cache cfg penv env key ?c'] =>
        rewrite (s3_fst_indep cfg penv env key c c');
        destruct (checkS3Cache cfg penv env key c') as [[b|] c3] eqn:Hs end;
      cbn [fst]; [reflexivity|].
      cbn. destruct (polly env (text r) (voiceId r) (options r)); reflexivity.
    + cbn. destruct (polly env (text r) (voiceId r) (options r)); reflexivity.
Qed.

Lemma getAudioWithCache_disk_hit_state cfg penv env r c b :
  let key := generateCacheKey (text r) (voiceId r) (options r) in
  let mc := checkMemoryCache cfg (now env) key c in
  fst mc = None ->
  fst (checkDiskCache cfg (now env) key (snd mc)) = Some b ->
  exists c0, snd (getAudioWithCache cfg penv env r c) = storeInMemoryCache cfg (now env) key b c0.
Proof.
  intros key mc Hm Hd. unfold getAudioWithCache, run. unfold step at 1.
  fold key. rewrite mem_set_stats. fold mc. rewrite Hm. cbv iota beta zeta.
  rewrite disk_set_stats, Hd. cbv iota beta zeta. cbn -[storeInMemoryCache].
  eexists. reflexivity.
Qed.

Lemma getAudioWithCache_s3_hit_state cfg penv env r c b :
  let key := generateCacheKey (text r) (voiceId r) (options r) in
  let mc := checkMemoryCache cfg (now env) key c in
  fst mc = None ->
  fst (checkDiskCache cfg (now env) key (snd mc)) = None ->
  s3Cache cfg = true ->
  fst (checkS3Cache cfg penv env key c) = Some b ->
  exists c0, snd (getAudioWithCache cfg penv env r c)
             = storeToDiskCache cfg env key b (storeInMemoryCache cfg (now env) key b c0).
Proof.
  intros key mc Hm Hd Hs3 Hs. unfold getAudioWithCache, run. unfold step at 1.
  fold key. rewrite mem_set_stats. fold mc. rewrite Hm. cbv iota beta zeta.
  rewrite disk_set_stats, Hd. cbv iota beta zeta. unfold step at 1. rewrite Hs3.
  match goal with |- context [checkS3Cache cfg penv env key ?c'] =>
    destruct (checkS3Cache cfg penv env key c') as [sr c3] eqn:E end.
  assert (sr = Some b) as ->.
  { match goal with H : checkS3Cache cfg penv env key ?c' = _ |- _ =>
      rewrite <- (s3_fst_indep cfg penv env key c' c), H in Hs; exact Hs end. }
  cbn -[storeInMemoryCache storeToDiskCache]. eexists. reflexivity.
Qed.

Lemma removeDiskCacheEntry_frame u k c :
  let c' := removeDiskCacheEntry u k c in
  memoryCache c' = memoryCache c /\ stats c' = stats c /\ events c' = events c.
Proof.
  unfold removeDiskCacheEntry.
  destruct (_ && _); [auto|]. destruct (_ && _); [auto|]. destruct k; auto.
Qed.

Lemma storeToDiskCache_frame cfg env k b c :
  let c' := storeToDiskCache cfg env k b c in
  memoryCache c' = memoryCache c /\ stats c' = stats c /\ events c' = events c.
Proof.
  unfold storeToDiskCache.
  set (c1 := if (maxDiskCache cfg <=? JSMap.size (diskCache c))%nat
             then removeDiskCacheEntry (unlinkable env) (JSMap.first_key (diskCache c)) c
             else c).
  assert (H : memoryCache c1 = memoryCache c /\ stats c1 = stats c /\ events c1 = events c).
  { unfold c1. destruct (_ <=? _)%nat; [apply removeDiskCacheEntry_frame | auto]. }
  destruct (writable env (mp3Path k)), (writable env (metaPath k)); exact H.
Qed.

Lemma storeToDiskCache_memoryCache cfg env k b c :
  memoryCache (storeToDiskCache cfg env k b c) = memoryCache c.
Proof. apply storeToDiskCache_frame. Qed.

Lemma checkMemoryCache_after_store cfg t t' k b c :
  t' - t < cacheExpiry cfg ->
  fst (checkMemoryCache cfg t' k (storeInMemoryCache cfg t k b c)) = Some b.
Proof.
  intros Ht. unfold checkMemoryCache, storeInMemoryCache. rewrite memoryCache_set_memory.
  rewrite JSMapFacts.get_set_eq. cbn. rewrite (proj2 (Z.ltb_lt _ _) Ht). reflexivity.
Qed.

Lemma checkDiskCache_after_store cfg env t k b c :
  writable env (mp3Path k) = true -> writable env (metaPath k) = true ->
  t - now env <= cacheExpiry cfg ->
  fst (checkDiskCache cfg t k (storeToDiskCache cfg env k b c)) = Some b.
Proof.
  intros Hw1 Hw2 Ht. unfold storeToDiskCache. rewrite Hw1, Hw2.
  unfold checkDiskCache. cbn [set_diskIndex set_files mp3Files metaFiles].
  rewrite !JSMapFacts.get_set_eq.
  rewrite Z.gtb_ltb. destruct (Z.ltb_spec (cacheExpiry cfg) (t - now env)); [lia|].
  reflexivity.
Qed.

Lemma getAudioWithCache_s3_fst_absent cfg penv env k c :
  ((exists n, s3Head env (bucketName penv) (s3ObjectKey k) = Err n) \/
   (exists lm n, s3Head env (bucketName penv) (s3ObjectKey k) = Ok lm /\
                 s3Get env (bucketName penv) (s3ObjectKey k) = Err n)) ->
  fst (checkS3Cache cfg penv env k c) = None.
Proof.
  unfold checkS3Cache. intros [[n Hn]|[lm [n [Hh Hg]]]].
  - rewrite Hn. reflexivity.
  - rewrite Hh. destruct (_ >? _); [reflexivity|]. rewrite Hg. reflexivity.
Qed.


Lemma checkMemoryCache_fst_memory cfg t k c1 c2 :
  memoryCache c1 = memoryCache c2 ->
  fst (checkMemoryCache cfg t k c1) = fst (checkMemoryCache cfg t k c2).
Proof.
  intros E. unfold checkMemoryCache. rewrite E.
  destruct (JSMap.get k (memoryCache c2)); [|reflexivity]. destruct (_ <? _); reflexivity.
Qed.

(** C7: a hit in a slower tier is copied into the faster ones.  A disk
    hit is stored in memory and an S3 hit in memory and on disk; the call
    then returns the hit, and the next call within the expiry period is a
    memory hit.  Writes that fail (a file that cannot be written) do not
    change the result. *)
Theorem getAudioWithCache_promotes_hits cfg penv env r c b res c' :
  let key := generateCacheKey (text r) (voiceId r) (options r) in
  let mc := checkMemoryCache cfg (now env) key c in
  let md := checkDiskCache cfg (now env) key (snd mc) in
  getAudioWithCache cfg penv env r c = (res, c') ->
  fst mc = None ->
  (fst md = Some b ->
     res = Ok (response b "disk" key true) /\
     (forall env', now env' - now env < cacheExpiry cfg ->
        fst (getAudioWithCache cfg penv env' r c') = Ok (response b "memory" key true))) /\
  (fst md = None -> s3Cache cfg = true -> fst (checkS3Cache cfg penv env key c) = Some b ->
     res = Ok (response b "s3" key true) /\
     (forall env', now env' - now env < cacheExpiry cfg ->
        fst (getAudioWithCache cfg penv env' r c') = Ok (response b "memory" key true)) /\
     (writable env (mp3Path key) = true -> writable env (metaPath key) = true ->
        forall t, t - now env <= cacheExpiry cfg ->
        fst (checkDiskCache cfg t key c') = Some b)).
Proof.
  intros key mc md Hrun Hm.
  pose proof (getAudioWithCache_result cfg penv env r c) as R. cbv zeta in R.
  fold key in R. fold mc in R. fold md in R. rewrite Hrun, Hm in R. cbn [fst] in R.
  split.
  - intros Hd. rewrite Hd in R. split; [exact R|].
    intros env' Ht. rewrite getAudioWithCache_result. cbv zeta. fold key.
    destruct (getAudioWithCache_disk_hit_state cfg penv env r c b Hm Hd) as [c0 Hc0].
    rewrite Hrun in Hc0. cbn [snd] in Hc0. subst c'.
    rewrite (checkMemoryCache_after_store cfg (now env) (now env') _ b c0 Ht). reflexivity.
  - intros Hd Hs3 Hs. rewrite Hd, Hs3, Hs in R. split; [exact R|].
    destruct (getAudioWithCache_s3_hit_state cfg penv env r c b Hm Hd Hs3 Hs) as [c0 Hc0].
    rewrite Hrun in Hc0. cbn [snd] in Hc0. subst c'. split.
    + intros env' Ht. rewrite getAudioWithCache_result. cbv zeta. fold key.
      rewrite (checkMemoryCache_fst_memory cfg (now env') _ _
                 (storeInMemoryCache cfg (now env) _ b c0)
                 (storeToDiskCache_memoryCache cfg env _ b _)).
      rewrite (checkMemoryCache_after_store cfg (now env) (now env') _ b c0 Ht). reflexivity.
    + intros Hw1 Hw2 t Ht. apply checkDiskCache_after_store; assumption.
Qed.

(** C8: a call rejects exactly when memory, disk and (when enabled) S3
    all miss and Polly fails, with Polly's error; failing writes to disk or
    S3 never make it reject. *)
Theorem getAudioWithCache_fails_only_if_generation_fails cfg penv env r c e :
  let key := generateCacheKey (text r) (voiceId r) (options r) in
  let mc := checkMemoryCache cfg (now env) key c in
  fst (getAudioWithCache cfg penv env r c) = Err e <->
  fst mc = None /\
  fst (checkDiskCache cfg (now env) key (snd mc)) = None /\
  (s3Cache cfg = true -> fst (checkS3Cache cfg penv env key c) = None) /\
  polly env (text r) (voiceId r) (options r) = Err e.
Proof.
  intros key mc. rewrite getAudioWithCache_result. cbv zeta. fold key mc.
  destruct (fst mc); [split; [discriminate | intuition discriminate]|].
  destruct (fst (checkDiskCache _ _ _ _)); [split; [discriminate | intuition discriminate]|].
  destruct (s3Cache cfg).
  - destruct (fst (checkS3Cache _ _ _ _ _)).
    + split; [discriminate|]. intros (_ & _ & H & _). specialize (H eq_refl). discriminate.
    + destruct (polly env _ _ _); split; intuition congruence.
  - destruct (polly env _ _ _); split; intuition congruence.
Qed.

(** C10: an error of the S3 [HeadObject] or [GetObject] request, whatever
    its kind, is a miss of [checkS3Cache], and the call returns what it
    returns when the object is absent. *)
Theorem getAudioWithCache_s3_read_errors_are_misses cfg penv env r c :
  let key := generateCacheKey (text r) (voiceId r) (options r) in
  ((exists n, s3Head env (bucketName penv) (s3ObjectKey key) = Err n) \/
   (exists lm n, s3Head env (bucketName penv) (s3ObjectKey key) = Ok lm /\
                 s3Get env (bucketName penv) (s3ObjectKey key) = Err n)) ->
  fst (checkS3Cache cfg penv env key c) = None /\
  fst (getAudioWithCache cfg penv env r c)
  = fst (getAudioWithCache cfg penv (s3_object_absent env) r c).
Proof.
  intros key Herr. split; [apply getAudioWithCache_s3_fst_absent; exact Herr|].
  rewrite !getAudioWithCache_result. cbv zeta. fold key.
  rewrite (getAudioWithCache_s3_fst_absent cfg penv env key c Herr).
  change (now (s3_object_absent env)) with (now env).
  change (polly (s3_object_absent env)) with (polly env).
  replace (fst (checkS3Cache cfg penv (s3_object_absent env) key c)) with (@None buffer)
    by reflexivity.
  reflexivity.
Qed.

(** ** Requests sent to S3 *)

Lemma events_checkMemoryCache cfg t k c : events (snd (checkMemoryCache cfg t k c)) = events c.
Proof.
  unfold checkMemoryCache. destruct (JSMap.get k (memoryCache c)); [|reflexivity].
  destruct (_ <? _); reflexivity.
Qed.

Lemma events_checkDiskCache cfg t k c : events (snd (checkDiskCache cfg t k c)) = events c.
Proof.
  unfold checkDiskCache.
  destruct (JSMap.get k (mp3Files c)), (JSMap.get k (metaFiles c)) as [[]|]; try reflexivity.
  destruct (_ >? _); reflexivity.
Qed.

Lemma events_storeToDiskCache cfg env k b c : events (storeToDiskCache cfg env k b c) = events c.
Proof. apply storeToDiskCache_frame. Qed.

Lemma checkS3Cache_emits_head cfg penv env k c :
  exists l, events (snd (checkS3Cache cfg penv env k c))
            = l ++ S3Head (bucketName penv) (s3ObjectKey k) :: events c.
Proof.
  unfold checkS3Cache. destruct (s3Head env _ _); [|exists []; reflexivity].
  destruct (_ >? _); [exists []; reflexivity|].
  destruct (s3Get env _ _); eexists [_]; reflexivity.
Qed.

Lemma step_events_suffix cfg penv env p c :
  exists l, events (snd (step cfg penv env p c)) = l ++ events c.
Proof.
  destruct p as [r|r k [b|]|r k [b|]|r k [b|e']|res]; cbn [step].
  - match goal with |- context [checkMemoryCache cfg (now env) ?k ?c1] =>
      pose proof (events_checkMemoryCache cfg (now env) k c1) as Em;
      destruct (checkMemoryCache cfg (now env) k c1) as [[b|] c2] eqn:E end.
    + exists []. cbn in *. exact Em.
    + match goal with |- context [checkDiskCache cfg (now env) ?k ?c2] =>
        pose proof (events_checkDiskCache cfg (now env) k c2) as Ed;
        destruct (checkDiskCache cfg (now env) k c2) as [d c3] eqn:E' end.
      exists []. cbn in *. congruence.
  - exists []. cbn. unfold storeInMemoryCache. reflexivity.
  - destruct (s3Cache cfg).
    + destruct (checkS3Cache_emits_head cfg penv env k c) as [l El].
      destruct (checkS3Cache cfg penv env k c) as [sr c1] eqn:E.
      cbn in El |- *.
      exists (l ++ [S3Head (bucketName penv) (s3ObjectKey k)]).
      rewrite El, <- app_assoc. reflexivity.
    + eexists [_]. reflexivity.
  - exists []. cbn. rewrite events_storeToDiskCache. reflexivity.
  - eexists [_]. reflexivity.
  - unfold storeInAllCaches. destruct (s3Cache cfg).
    + eexists [_]. cbn. rewrite events_storeToDiskCache. reflexivity.
    + exists []. cbn. rewrite events_storeToDiskCache. reflexivity.
  - exists []. reflexivity.
  - exists []. reflexivity.
Qed.

Lemma run_events_suffix cfg penv env n p c :
  exists l, events (snd (run cfg penv env n p c)) = l ++ events c.
Proof.
  revert p c. induction n as [|n IH]; intros p c; cbn [run]; [exists []; reflexivity|].
  destruct (step_events_suffix cfg penv env p c) as [l1 E1].
  destruct (step cfg penv env p c) as [p' c'] eqn:E.
  destruct (IH p' c') as [l2 E2]. exists (l2 ++ l1). cbn in E1.
  rewrite E2, E1, app_assoc. reflexivity.
Qed.

(** After a memory and a disk miss with [s3Cache] set, every request that
    [checkS3Cache] sends from any state is sent by the call. *)
Lemma getAudioWithCache_s3_event cfg penv env r c e :
  let key := generateCacheKey (text r) (voiceId r) (options r) in
  let mc := checkMemoryCache cfg (now env) key c in
  fst mc = None ->
  fst (checkDiskCache cfg (now env) key (snd mc)) = None ->
  s3Cache cfg = true ->
  (forall c1, In e (events (snd (checkS3Cache cfg penv env key c1)))) ->
  In e (events (snd (getAudioWithCache cfg penv env r c))).
Proof.
  intros key mc Hm Hd Hs3 He. unfold getAudioWithCache.
  change (run cfg penv env 4 (Start r) c)
    with (let '(p', c') := step cfg penv env (Start r) c in run cfg penv env 3 p' c').
  unfold step at 1. fold key. rewrite mem_set_stats. fold mc. rewrite Hm. cbv iota beta zeta.
  rewrite disk_set_stats, Hd. cbv iota beta zeta.
  change (run cfg penv env 3 ?p ?c1)
    with (let '(p', c') := step cfg penv env p c1 in run cfg penv env 2 p' c').
  unfold step at 1. rewrite Hs3.
  match goal with |- context [checkS3Cache cfg penv env key ?c1] =>
    pose proof (He c1) as Hin;
    destruct (checkS3Cache cfg penv env key c1) as [sr c2] eqn:E end.
  cbv iota beta zeta. cbn [snd] in Hin.
  destruct (run cfg penv env 2 (AfterS3 r key sr) c2) as [p3 c3] eqn:E3.
  destruct (run_events_suffix cfg penv env 2 (AfterS3 r key sr) c2) as [l3 El3].
  rewrite E3 in El3. cbn [snd] in *. rewrite El3. apply in_or_app. right. exact Hin.
Qed.

Lemma checkS3Cache_head_in cfg penv env k c :
  In (S3Head (bucketName penv) (s3ObjectKey k)) (events (snd (checkS3Cache cfg penv env k c))).
Proof.
  destruct (checkS3Cache_emits_head cfg penv env k c) as [l El]. rewrite El.
  apply in_or_app. right. left. reflexivity.
Qed.

Lemma checkS3Cache_get_in cfg penv env k c lm :
  s3Head env (bucketName penv) (s3ObjectKey k) = Ok lm ->
  now env - lm <= cacheExpiry cfg ->
  In (S3GetObject (bucketName penv) (s3ObjectKey k)) (events (snd (checkS3Cache cfg penv env k c))).
Proof.
  intros Hh Ht. unfold checkS3Cache. rewrite Hh.
  rewrite Z.gtb_ltb. destruct (Z.ltb_spec (cacheExpiry cfg) (now env - lm)); [lia|].
  destruct (s3Get env _ _); left; reflexivity.
Qed.

Lemma getAudioWithCache_probes_s3 cfg penv env r c :
  let key := generateCacheKey (text r) (voiceId r) (options r) in
  let mc := checkMemoryCache cfg (now env) key c in
  fst mc = None ->
  fst (checkDiskCache cfg (now env) key (snd mc)) = None ->
  s3Cache cfg = true ->
  In (S3Head (bucketName penv) (s3ObjectKey key)) (events (snd (getAudioWithCache cfg penv env r c))).
Proof.
  intros key mc Hm Hd Hs3. apply getAudioWithCache_s3_event; try assumption.
  intros c1. apply checkS3Cache_head_in.
Qed.

(** C9: the failover of the S3 service writes [USE_S3_CACHE=false] and
    [CACHE_MODE=memory_only] into [process.env] and announces
    memory-only caching, but [getAudioWithCache] reads neither entry:
    after a memory and disk miss it still sends the S3 [HeadObject]
    request, and the [GetObject] request when the object is fresh. *)
Theorem s3_failover_keeps_remote_probe henv m env r c :
  let penv' := procEnv (triggerFailover henv "s3-cache" m) in
  let cfg := constructor_config in
  let key := generateCacheKey (text r) (voiceId r) (options r) in
  let mc := checkMemoryCache cfg (now env) key c in
  fst mc = None ->
  fst (checkDiskCache cfg (now env) key (snd mc)) = None ->
  JSMap.get "USE_S3_CACHE" penv' = Some "false" /\
  JSMap.get "CACHE_MODE" penv' = Some "memory_only" /\
  In (S3Head (bucketName penv') (s3ObjectKey key))
     (events (snd (getAudioWithCache cfg penv' env r c))) /\
  (forall lm, s3Head env (bucketName penv') (s3ObjectKey key) = Ok lm ->
     now env - lm <= cacheExpiry cfg ->
     In (S3GetObject (bucketName penv') (s3ObjectKey key))
        (events (snd (getAudioWithCache cfg penv' env r c)))).
Proof.
  intros penv' cfg key mc Hm Hd.
  assert (Hp : penv' = s3Failover (procEnv m)) by reflexivity.
  split; [|split; [|split]].
  - rewrite Hp. unfold s3Failover. rewrite JSMapFacts.get_set. cbn.
    apply JSMapFacts.get_set_eq.
  - rewrite Hp. unfold s3Failover. apply JSMapFacts.get_set_eq.
  - apply getAudioWithCache_probes_s3; [exact Hm | exact Hd | reflexivity].
  - intros lm Hh Ht. apply getAudioWithCache_s3_event; [exact Hm | exact Hd | reflexivity |].
    intros c1. apply (checkS3Cache_get_in cfg penv' env key c1 lm Hh Ht).
Qed.

(** ** Interleaved calls *)

Lemma replace_nth_middle {A} (pre post : list A) (x y : A) :
  replace_nth (List.length pre) x (pre ++ y :: post) = pre ++ x :: post.
Proof. induction pre as [|z pre IH]; cbn; [reflexivity|]. rewrite IH. reflexivity. Qed.

Lemma run_sched_app cfg penv env s1 s2 c ps :
  run_sched cfg penv env (s1 ++ s2) c ps
  = run_sched cfg penv env s2 (fst (run_sched cfg penv env s1 c ps))
                              (snd (run_sched cfg penv env s1 c ps)).
Proof.
  revert c ps. induction s1 as [|i s1 IH]; intros c ps; cbn; [reflexivity|].
  destruct (nth_error ps i); [|apply IH].
  destruct (step cfg penv env p c). apply IH.
Qed.

Lemma run_sched_seq cfg penv env ps pre c :
  run_sched cfg penv env (seq (List.length pre) (List.length ps)) c (pre ++ ps)
  = (fst (step_all cfg penv env c ps), pre ++ snd (step_all cfg penv env c ps)).
Proof.
  revert pre c. induction ps as [|p ps IH]; intros pre c; cbn [seq List.length step_all].
  - cbn. rewrite app_nil_r. reflexivity.
  - cbn [run_sched]. rewrite nth_error_app2, Nat.sub_diag by lia. cbn [nth_error].
    destruct (step cfg penv env p c) as [p' c1].
    rewrite replace_nth_middle.
    replace (S (List.length pre)) with (List.length (pre ++ [p']))
      by (rewrite length_app; cbn; lia).
    replace (pre ++ p' :: ps) with ((pre ++ [p']) ++ ps) by (rewrite <- app_assoc; reflexivity).
    rewrite IH. destruct (step_all cfg penv env c1 ps) as [c2 ps'']. cbn.
    rewrite <- app_assoc. reflexivity.
Qed.

Lemma step_all_repeat cfg penv env (P : Cache -> Prop) p p' k :
  (forall c, P c ->
     fst (step cfg penv env p c) = p' /\ P (snd (step cfg penv env p c)) /\
     count_polly (events (snd (step cfg penv env p c))) = (k + count_polly (events c))%nat) ->
  forall n c, P c ->
  snd (step_all cfg penv env c (repeat p n)) = repeat p' n /\
  P (fst (step_all cfg penv env c (repeat p n))) /\
  count_polly (events (fst (step_all cfg penv env c (repeat p n))))
  = (n * k + count_polly (events c))%nat.
Proof.
  intros Hstep n. induction n as [|n IH]; intros c Hc; cbn [repeat step_all].
  - cbn. auto.
  - destruct (Hstep c Hc) as (H1 & H2 & H3).
    destruct (step cfg penv env p c) as [q c1]. cbn [fst snd] in *. subst q.
    destruct (IH c1 H2) as (I1 & I2 & I3).
    destruct (step_all cfg penv env c1 (repeat p n)) as [c2 ps]. cbn [fst snd] in *.
    subst ps. split; [reflexivity|]. split; [exact I2|]. rewrite I3, H3. lia.
Qed.

Lemma step_start_miss cfg penv env r c :
  let key := generateCacheKey (text r) (voiceId r) (options r) in
  JSMap.get key (memoryCache c) = None -> JSMap.get key (mp3Files c) = None ->
  step cfg penv env (Start r) c
  = (AfterDisk r key None, set_stats (bump_totalRequests (stats c)) c).
Proof.
  intros key Hm Hd. cbn [step]. fold key.
  unfold checkMemoryCache at 1. cbn [memoryCache set_stats]. rewrite Hm. cbv iota beta zeta.
  unfold checkDiskCache. cbn [mp3Files set_stats]. rewrite Hd. reflexivity.
Qed.

Lemma count_polly_storeInAllCaches cfg penv env k b c :
  count_polly (events (storeInAllCaches cfg penv env k b c)) = count_polly (events c).
Proof.
  unfold storeInAllCaches. destruct (s3Cache cfg); cbn; rewrite events_storeToDiskCache;
  reflexivity.
Qed.

(** C1 (amended): there is no coalescing of calls.  When [n] calls for the
    same request are interleaved at their [await]s, round by round, and
    every tier misses, each call sends its own Polly request ([n] in all)
    and each returns the generated audio. *)
Theorem getAudioWithCache_concurrent_calls_each_generate cfg penv env r c b e n :
  let key := generateCacheKey (text r) (voiceId r) (options r) in
  s3Cache cfg = true ->
  JSMap.get key (memoryCache c) = None ->
  JSMap.get key (mp3Files c) = None ->
  s3Head env (bucketName penv) (s3ObjectKey key) = Err e ->
  polly env (text r) (voiceId r) (options r) = Ok b ->
  count_polly (events (fst (run_sched cfg penv env (round_robin n 4) c (repeat (Start r) n))))
  = (n + count_polly (events c))%nat /\
  snd (run_sched cfg penv env (round_robin n 4) c (repeat (Start r) n))
  = repeat (Done (Ok (response b "generated" key false))) n.
Proof.
  intros key Hs3 Hm Hd Hh Hp.
  assert (Hrr : round_robin n 4 = seq 0 n ++ seq 0 n ++ seq 0 n ++ seq 0 n).
  { unfold round_robin. cbn. rewrite app_nil_r. reflexivity. }
  assert (Hseq : forall (p : Phase) c0,
             run_sched cfg penv env (seq 0 n) c0 (repeat p n)
             = (fst (step_all cfg penv env c0 (repeat p n)),
                snd (step_all cfg penv env c0 (repeat p n)))).
  { intros p c0. pose proof (run_sched_seq cfg penv env (repeat p n) [] c0) as H.
    rewrite repeat_length in H. exact H. }
  (* round 1: every call checks the memory and disk tiers and misses *)
  destruct (step_all_repeat cfg penv env
              (fun c => JSMap.get key (memoryCache c) = None /\ JSMap.get key (mp3Files c) = None)
              (Start r) (AfterDisk r key None) 0) with (n := n) (c := c)
    as (A1 & _ & C1); [|split; assumption|].
  { intros c0 [H1 H2]. rewrite (step_start_miss cfg penv env r c0 H1 H2). cbn. auto. }
  (* round 2: every call probes S3 and misses *)
  destruct (step_all_repeat cfg penv env (fun _ => True)
              (AfterDisk r key None) (AfterS3 r key None) 0)
    with (n := n) (c := fst (step_all cfg penv env c (repeat (Start r) n)))
    as (A2 & _ & C2); [|exact I|].
  { intros c0 _. cbn [step]. rewrite Hs3. unfold checkS3Cache. rewrite Hh. cbn. auto. }
  (* round 3: every call sends a synthesis request *)
  set (c2 := fst (step_all cfg penv env _ (repeat (AfterDisk r key None) n))) in C2.
  destruct (step_all_repeat cfg penv env (fun _ => True)
              (AfterS3 r key None) (AfterGen r key (Ok b)) 1)
    with (n := n) (c := c2) as (A3 & _ & C3); [|exact I|].
  { intros c0 _. unfold step, begin_generation. rewrite Hp. cbn. auto. }
  (* round 4: every call stores the audio and returns it *)
  set (c3 := fst (step_all cfg penv env c2 (repeat (AfterS3 r key None) n))) in C3.
  destruct (step_all_repeat cfg penv env (fun _ => True)
              (AfterGen r key (Ok b)) (Done (Ok (response b "generated" key false))) 0)
    with (n := n) (c := c3) as (A4 & _ & C4); [|exact I|].
  { intros c0 _. unfold step. cbn [fst snd]. split; [reflexivity|]. split; [exact I|].
    rewrite count_polly_storeInAllCaches. reflexivity. }
  rewrite Hrr, !run_sched_app.
  rewrite Hseq. cbn [fst snd]. rewrite A1.
  rewrite Hseq. cbn [fst snd]. rewrite A2.
  fold c2. rewrite Hseq. cbn [fst snd]. rewrite A3.
  fold c3. rewrite Hseq. cbn [fst snd].
  rewrite A4. split; [|reflexivity].
  rewrite C4, C3, C2, C1. lia.
Qed.

(** C1, counterexample: two interleaved calls for [req_emergency] from the
    empty cache send two Polly requests, not one. *)
Lemma concurrent_calls_not_coalesced :
  let res := run_sched constructor_config penv0 (env_abc 0) (round_robin 2 4)
               initial_cache (repeat (Start req_emergency) 2) in
  count_polly (events (fst res)) <> 1%nat /\ count_polly (events (fst res)) = 2%nat.
Proof. vm_compute. split; [discriminate | reflexivity]. Qed.

(** C1, with two interleaved calls for [req_emergency]. *)
Lemma getAudioWithCache_concurrent_calls_each_generate_witness :
  let key := generateCacheKey (text req_emergency) (voiceId req_emergency) (options req_emergency) in
  count_polly (events (fst (run_sched constructor_config penv0 (env_abc 0) (round_robin 2 4)
                             initial_cache (repeat (Start req_emergency) 2))))
  = (2 + count_polly (events initial_cache))%nat /\
  snd (run_sched constructor_config penv0 (env_abc 0) (round_robin 2 4)
         initial_cache (repeat (Start req_emergency) 2))
  = repeat (Done (Ok (response [97; 98; 99] "generated" key false))) 2.
Proof.
  apply (getAudioWithCache_concurrent_calls_each_generate constructor_config penv0 (env_abc 0)
           req_emergency initial_cache [97; 98; 99] "NotFound" 2);
    vm_compute; reflexivity.
Defined.

(** ** Health monitoring *)

Lemma failover_count_triggerFailover henv s s' m :
  failover_count s (triggerFailover henv s' m)
  = ((if String.eqb s' s then 1 else 0) + failover_count s m)%nat.
Proof.
  unfold failover_count, triggerFailover. cbn [failovers count_occ].
  destruct (string_dec s' s) as [->|Hne].
  - rewrite String.eqb_refl. reflexivity.
  - apply String.eqb_neq in Hne. rewrite Hne. reflexivity.
Qed.

Lemma updateService_other henv m s s' :
  s' <> s ->
  JSMap.get s (consecutiveFailures (updateService henv m s')) = JSMap.get s (consecutiveFailures m) /\
  JSMap.get s (serviceStatus (updateService henv m s')) = JSMap.get s (serviceStatus m) /\
  failover_count s (updateService henv m s') = failover_count s m.
Proof.
  intros Hne. pose proof Hne as Hb. apply String.eqb_neq in Hb.
  unfold updateService.
  destruct (probe henv s'); [|destruct (num_geb _ _)];
    rewrite ?failover_count_triggerFailover, ?Hb;
    unfold triggerFailover, set_status, set_counter, failover_count; cbn;
    rewrite ?JSMapFacts.get_set, ?Hb; auto.
Qed.

Lemma fold_updateService_other henv l m s :
  ~ In s l ->
  JSMap.get s (consecutiveFailures (fold_left (updateService henv) l m))
  = JSMap.get s (consecutiveFailures m) /\
  JSMap.get s (serviceStatus (fold_left (updateService henv) l m)) = JSMap.get s (serviceStatus m) /\
  failover_count s (fold_left (updateService henv) l m) = failover_count s m.
Proof.
  revert m. induction l as [|s' l IH]; intros m Hin; cbn [fold_left]; [auto|].
  destruct (IH (updateService henv m s')) as (E1 & E2 & E3); [intro; apply Hin; right; assumption|].
  destruct (updateService_other henv m s s') as (F1 & F2 & F3); [intro; apply Hin; left; assumption|].
  rewrite E1, E2, E3, F1, F2, F3. auto.
Qed.

Lemma updateService_self henv m s n :
  JSMap.get s (consecutiveFailures m) = Some (Fin n) ->
  JSMap.get s (consecutiveFailures (updateService henv m s))
  = Some (if probe henv s then Fin 0 else Fin (S n)) /\
  JSMap.get s (serviceStatus (updateService henv m s))
  = Some (if probe henv s then "healthy"
          else if (failoverThreshold <=? S n)%nat then "failed" else "degraded") /\
  failover_count s (updateService henv m s)
  = ((if probe henv s then 0 else if (failoverThreshold <=? S n)%nat then 1 else 0)
     + failover_count s m)%nat.
Proof.
  intros Hc. unfold updateService. rewrite Hc. cbn [num_succ num_geb].
  destruct (probe henv s); [|destruct (failoverThreshold <=? S n)%nat];
    rewrite ?failover_count_triggerFailover, ?String.eqb_refl;
    unfold triggerFailover, set_status, set_counter, failover_count; cbn;
    rewrite ?JSMapFacts.get_set, ?String.eqb_refl; auto.
Qed.

(** C3 (amended): one [performHealthCheck] round, for a checked service
    whose counter is [n].  A success sets the counter to 0 and the status to
    healthy.  A failure sets the counter to [n + 1] and the status to
    degraded below the threshold 3, failed from it on; [triggerFailover]
    runs on every failure with [n + 1 >= 3], not only on the first one. *)
Theorem performHealthCheck_transition henv m s n :
  existsb (String.eqb s) checked_services = true ->
  JSMap.get s (consecutiveFailures m) = Some (Fin n) ->
  JSMap.get s (consecutiveFailures (performHealthCheck henv m))
  = Some (if probe henv s then Fin 0 else Fin (S n)) /\
  JSMap.get s (serviceStatus (performHealthCheck henv m))
  = Some (if probe henv s then "healthy"
          else if (failoverThreshold <=? S n)%nat then "failed" else "degraded") /\
  failover_count s (performHealthCheck henv m)
  = ((if probe henv s then 0 else if (failoverThreshold <=? S n)%nat then 1 else 0)
     + failover_count s m)%nat.
Proof.
  intros Hs Hc.
  assert (Hsplit : exists l1 l2, checked_services = l1 ++ s :: l2 /\ ~ In s l1 /\ ~ In s l2).
  { unfold checked_services in *. cbn [existsb] in Hs.
    repeat (apply orb_true_iff in Hs; destruct Hs as [Hs|Hs]);
      try (apply String.eqb_eq in Hs; subst s);
      try discriminate.
    - exists [], ["transcribe"; "s3-cache"; "cloudfront"]. cbn; intuition discriminate.
    - exists ["polly"], ["s3-cache"; "cloudfront"]. cbn; intuition discriminate.
    - exists ["polly"; "transcribe"], ["cloudfront"]. cbn; intuition discriminate.
    - exists ["polly"; "transcribe"; "s3-cache"], []. cbn; intuition discriminate. }
  destruct Hsplit as (l1 & l2 & Hl & H1 & H2).
  unfold performHealthCheck. rewrite Hl, fold_left_app. cbn [fold_left].
  destruct (fold_updateService_other henv l1 m s H1) as (E1 & E2 & E3).
  destruct (fold_updateService_other henv l2
              (updateService henv (fold_left (updateService henv) l1 m) s) s H2)
    as (F1 & F2 & F3).
  rewrite F1, F2, F3. rewrite <- E3. apply updateService_self. rewrite E1. exact Hc.
Qed.

(** C3, counterexample: four failing rounds from the initial monitor run
    the S3 failover twice, in rounds 3 and 4. *)
Lemma failover_repeats_while_failing :
  let m := health_rounds [all_fail; all_fail; all_fail; all_fail] (initial_monitor penv0) in
  failover_count "s3-cache" m <> 1%nat /\ failover_count "s3-cache" m = 2%nat.
Proof. vm_compute. split; [discriminate | reflexivity]. Qed.

(** C3, at the fourth failing round of the S3 service. *)
Lemma performHealthCheck_transition_witness :
  let m := health_rounds [all_fail; all_fail; all_fail] (initial_monitor penv0) in
  JSMap.get "s3-cache" (consecutiveFailures (performHealthCheck all_fail m))
  = Some (if probe all_fail "s3-cache" then Fin 0 else Fin 4) /\
  JSMap.get "s3-cache" (serviceStatus (performHealthCheck all_fail m))
  = Some (if probe all_fail "s3-cache" then "healthy"
          else if (failoverThreshold <=? 4)%nat then "failed" else "degraded") /\
  failover_count "s3-cache" (performHealthCheck all_fail m)
  = ((if probe all_fail "s3-cache" then 0
      else if (failoverThreshold <=? 4)%nat then 1 else 0)
     + failover_count "s3-cache" m)%nat.
Proof.
  apply (performHealthCheck_transition all_fail _ "s3-cache" 3); vm_compute; reflexivity.
Defined.

(** C7, at a disk hit of [req_emergency]. *)
Lemma getAudioWithCache_promotes_hits_witness :
  let cfg := constructor_config in
  let env := env_abc 1000 in
  let r := req_emergency in
  let key := generateCacheKey (text r) (voiceId r) (options r) in
  let b := [1; 2; 3] in
  let c := storeToDiskCache cfg (env_abc 0) key b initial_cache in
  let res := fst (getAudioWithCache cfg penv0 env r c) in
  let c' := snd (getAudioWithCache cfg penv0 env r c) in
  let mc := checkMemoryCache cfg (now env) key c in
  let md := checkDiskCache cfg (now env) key (snd mc) in
  (fst md = Some b ->
     res = Ok (response b "disk" key true) /\
     (forall env', now env' - now env < cacheExpiry cfg ->
        fst (getAudioWithCache cfg penv0 env' r c') = Ok (response b "memory" key true))) /\
  (fst md = None -> s3Cache cfg = true -> fst (checkS3Cache cfg penv0 env key c) = Some b ->
     res = Ok (response b "s3" key true) /\
     (forall env', now env' - now env < cacheExpiry cfg ->
        fst (getAudioWithCache cfg penv0 env' r c') = Ok (response b "memory" key true)) /\
     (writable env (mp3Path key) = true -> writable env (metaPath key) = true ->
        forall t, t - now env <= cacheExpiry cfg ->
        fst (checkDiskCache cfg t key c') = Some b)).
Proof.
  intros cfg env r key b c res c' mc md.
  apply (getAudioWithCache_promotes_hits cfg penv0 env r c b res c').
  - apply surjective_pairing.
  - vm_compute. reflexivity.
Defined.

(** C10, with S3 answering [AccessDenied]. *)
Lemma getAudioWithCache_s3_read_errors_are_misses_witness :
  let cfg := constructor_config in
  let env := env_s3_denied 0 in
  let r := req_emergency in
  let key := generateCacheKey (text r) (voiceId r) (options r) in
  fst (checkS3Cache cfg penv0 env key initial_cache) = None /\
  fst (getAudioWithCache cfg penv0 env r initial_cache)
  = fst (getAudioWithCache cfg penv0 (s3_object_absent env) r initial_cache).
Proof.
  intros cfg env r key.
  apply (getAudioWithCache_s3_read_errors_are_misses cfg penv0 env r initial_cache).
  left. exists "AccessDenied". reflexivity.
Defined.

(** C9, the failing input: after three failing health checks the S3
    failover has run once and [process.env] says memory-only caching, yet a
    lookup of [req_emergency] still sends S3 read requests, and with a
    fresh object in S3 it is answered from S3. *)
Lemma s3_failover_still_reads_s3 :
  let m := health_rounds [all_fail; all_fail; all_fail] (initial_monitor penv0) in
  let c := snd (getAudioWithCache constructor_config (procEnv m) (env_abc 0)
                  req_emergency initial_cache) in
  failover_count "s3-cache" m = 1%nat /\
  JSMap.get "USE_S3_CACHE" (procEnv m) = Some "false" /\
  JSMap.get "CACHE_MODE" (procEnv m) = Some "memory_only" /\
  count_s3_reads (events c) <> 0%nat /\
  match fst (getAudioWithCache constructor_config (procEnv m) (env_s3_fresh 1000)
               req_emergency initial_cache) with
  | Ok resp => source resp = "s3"
  | Err _ => False
  end.
Proof.
  vm_compute. split; [reflexivity|]. split; [reflexivity|]. split; [reflexivity|].
  split; [discriminate | reflexivity].
Qed.

(** C9, after the failover of the S3 service from the initial monitor,
    with a fresh copy of every object in S3. *)
Lemma s3_failover_keeps_remote_probe_witness :
  let m := initial_monitor penv0 in
  let penv' := procEnv (triggerFailover all_fail "s3-cache" m) in
  let cfg := constructor_config in
  let env := env_s3_fresh 1000 in
  let r := req_emergency in
  let key := generateCacheKey (text r) (voiceId r) (options r) in
  JSMap.get "USE_S3_CACHE" penv' = Some "false" /\
  JSMap.get "CACHE_MODE" penv' = Some "memory_only" /\
  In (S3Head (bucketName penv') (s3ObjectKey key))
     (events (snd (getAudioWithCache cfg penv' env r initial_cache))) /\
  (forall lm, s3Head env (bucketName penv') (s3ObjectKey key) = Ok lm ->
     now env - lm <= cacheExpiry cfg ->
     In (S3GetObject (bucketName penv') (s3ObjectKey key))
        (events (snd (getAudioWithCache cfg penv' env r initial_cache)))).
Proof.
  intros m penv' cfg env r key.
  apply (s3_failover_keeps_remote_probe all_fail m env r initial_cache);
    vm_compute; reflexivity.
Defined.

(** ** Cache keys *)

(** Texts equal after [trim().toLowerCase()] have the same key. *)
Lemma generateCacheKey_normalized t1 t2 v o :
  toLowerCase (trim t1) = toLowerCase (trim t2) ->
  generateCacheKey t1 v o = generateCacheKey t2 v o.
Proof. intros H. unfold generateCacheKey, cache_key_data. rewrite H. reflexivity. Qed.

Lemma length_string_of_list l : String.length (string_of_list l) = List.length l.
Proof. induction l as [|x l IH]; cbn; [reflexivity | rewrite IH; reflexivity]. Qed.

Lemma length_digest msg : List.length (MD5.digest msg) = 16%nat.
Proof. unfold MD5.digest. destruct (MD5.blocks _ _ _). reflexivity. Qed.

(** Every key is 32 hexadecimal digits (128 bits). *)
Lemma generateCacheKey_length t v o : String.length (generateCacheKey t v o) = 32%nat.
Proof.
  unfold generateCacheKey, md5_hex, hex_of_bytes. rewrite length_string_of_list.
  generalize (length_digest (utf8_encode (cache_key_data t v o))).
  generalize (MD5.digest (utf8_encode (cache_key_data t v o))).
  intros l Hl. rewrite <- (Nat.mul_cancel_l _ _ 2) in Hl by discriminate.
  transitivity (2 * List.length l)%nat; [|rewrite Hl; reflexivity].
  clear Hl. induction l as [|x l IH]; cbn [flat_map List.length app]; [reflexivity|].
  rewrite IH. lia.
Qed.

(** ** Further properties of the cache *)

Lemma stats_checkMemoryCache cfg t k c : stats (snd (checkMemoryCache cfg t k c)) = stats c.
Proof.
  unfold checkMemoryCache. destruct (JSMap.get k (memoryCache c)); [|reflexivity].
  destruct (_ <? _); reflexivity.
Qed.

Lemma stats_checkDiskCache cfg t k c : stats (snd (checkDiskCache cfg t k c)) = stats c.
Proof.
  unfold checkDiskCache.
  destruct (JSMap.get k (mp3Files c)), (JSMap.get k (metaFiles c)) as [[]|]; try reflexivity.
  destruct (_ >? _); reflexivity.
Qed.

Lemma stats_storeToDiskCache cfg env k b c : stats (storeToDiskCache cfg env k b c) = stats c.
Proof. apply storeToDiskCache_frame. Qed.

Lemma stats_checkS3Cache cfg penv env k c : stats (snd (checkS3Cache cfg penv env k c)) = stats c.
Proof.
  unfold checkS3Cache. destruct (s3Head env _ _); [|reflexivity].
  destruct (_ >? _); [reflexivity|]. destruct (s3Get env _ _); reflexivity.
Qed.

Lemma stats_storeInAllCaches cfg penv env k b c : stats (storeInAllCaches cfg penv env k b c) = stats c.
Proof.
  unfold storeInAllCaches. destruct (s3Cache cfg); cbn; rewrite stats_storeToDiskCache; reflexivity.
Qed.

Lemma step_stats_balance cfg penv env p c :
  let '(p', c') := step cfg penv env p c in
  (stats_sum (stats c') + owed p' + totalRequests (stats c)
   = stats_sum (stats c) + owed p + totalRequests (stats c'))%nat.
Proof.
  destruct p as [r|r key [b|]|r key [b|]|r key [b|e]|res]; cbn [step].
  - destruct (checkMemoryCache _ _ _ _) as [[b|] c2] eqn:E1.
    + pose proof (f_equal (fun x => stats (snd x)) E1) as H. cbn in H.
      rewrite stats_checkMemoryCache in H. cbn in H. rewrite <- H.
      unfold stats_sum. cbn. lia.
    + pose proof (f_equal (fun x => stats (snd x)) E1) as H. cbn in H.
      rewrite stats_checkMemoryCache in H. cbn in H.
      destruct (checkDiskCache _ _ _ c2) as [d c3] eqn:E2.
      pose proof (f_equal (fun x => stats (snd x)) E2) as H2. cbn in H2.
      rewrite stats_checkDiskCache in H2. rewrite <- H2, <- H.
      unfold stats_sum. cbn. lia.
  - unfold storeInMemoryCache. unfold stats_sum. cbn. lia.
  - destruct (s3Cache cfg).
    + destruct (checkS3Cache _ _ _ _ _) as [s c1] eqn:E.
      pose proof (f_equal (fun x => stats (snd x)) E) as H. cbn in H.
      rewrite stats_checkS3Cache in H. rewrite <- H. cbn. lia.
    + unfold begin_generation, stats_sum. cbn. lia.
  - rewrite stats_storeToDiskCache. unfold storeInMemoryCache, stats_sum. cbn. lia.
  - unfold begin_generation, stats_sum. cbn. lia.
  - rewrite stats_storeInAllCaches. cbn. lia.
  - cbn. lia.
  - cbn. lia.
Qed.

Lemma owed_all_replace_nth i p p' ps :
  nth_error ps i = Some p ->
  (owed_all (replace_nth i p' ps) + owed p = owed_all ps + owed p')%nat.
Proof.
  revert i. induction ps as [|q ps IH]; intros [|i] H; cbn in H |- *; try discriminate.
  - injection H as ->. lia.
  - specialize (IH i H). lia.
Qed.

(** Interleaved calls keep the counters balanced: the hit and miss
    counters plus the calls suspended at the [await] of [checkDiskCache]
    or of [checkS3Cache], whose outcome is not counted yet, add up to
    [totalRequests]. *)
Theorem run_sched_stats_balance cfg penv env sched c ps :
  (stats_sum (stats c) + owed_all ps = totalRequests (stats c))%nat ->
  (stats_sum (stats (fst (run_sched cfg penv env sched c ps)))
   + owed_all (snd (run_sched cfg penv env sched c ps))
   = totalRequests (stats (fst (run_sched cfg penv env sched c ps))))%nat.
Proof.
  revert c ps. induction sched as [|i sched IH]; intros c ps H; cbn [run_sched]; [exact H|].
  destruct (nth_error ps i) as [p|] eqn:Ei; [|apply IH; exact H].
  pose proof (step_stats_balance cfg penv env p c) as Hs.
  destruct (step cfg penv env p c) as [p' c'] eqn:Es.
  apply IH. pose proof (owed_all_replace_nth i p p' ps Ei). lia.
Qed.

Lemma step_rank cfg penv env p c :
  (rank p < 4)%nat -> (rank p < rank (fst (step cfg penv env p c)))%nat.
Proof.
  intros H. destruct p as [r|r key [b|]|r key [b|]|r key [b|e]|res]; cbn [step].
  - destruct (checkMemoryCache _ _ _ _) as [[b|] c2].
    + cbn. lia.
    + destruct (checkDiskCache _ _ _ c2). cbn. lia.
  - cbn. lia.
  - destruct (s3Cache cfg); [destruct (checkS3Cache _ _ _ _ _)|]; cbn; lia.
  - cbn. lia.
  - cbn. lia.
  - cbn. lia.
  - cbn. lia.
  - cbn in H. lia.
Qed.

Lemma run_rank cfg penv env n p c :
  (Nat.min 4 (rank p + n) <= rank (fst (run cfg penv env n p c)))%nat.
Proof.
  revert p c. induction n as [|n IH]; intros p c; cbn [run].
  - cbn [fst]. lia.
  - destruct (Nat.lt_ge_cases (rank p) 4) as [Hl|Hg].
    + pose proof (step_rank cfg penv env p c Hl).
      destruct (step cfg penv env p c) as [p' c'] eqn:E. cbn [fst] in *.
      specialize (IH p' c'). lia.
    + destruct p; cbn in Hg; try lia. cbn [step].
      specialize (IH (Done result) c). cbn in IH |- *. lia.
Qed.

Lemma run_stats_balance cfg penv env n p c :
  (stats_sum (stats c) + owed p + totalRequests (stats (snd (run cfg penv env n p c)))
   = stats_sum (stats (snd (run cfg penv env n p c))) + owed (fst (run cfg penv env n p c))
     + totalRequests (stats c))%nat.
Proof.
  revert p c. induction n as [|n IH]; intros p c; cbn [run]; [cbn; lia|].
  pose proof (step_stats_balance cfg penv env p c) as Hs.
  destruct (step cfg penv env p c) as [p' c'] eqn:E.
  specialize (IH p' c'). lia.
Qed.



Lemma step_totalRequests cfg penv env p c :
  totalRequests (stats (snd (step cfg penv env p c)))
  = (match p with Start _ => 1 | _ => 0 end + totalRequests (stats c))%nat.
Proof.
  pose proof (step_stats_balance cfg penv env p c) as _.
  destruct p as [r|r key [b|]|r key [b|]|r key [b|e]|res]; cbn [step].
  - destruct (checkMemoryCache _ _ _ _) as [[b|] c2] eqn:E1;
      pose proof (f_equal (fun x => stats (snd x)) E1) as H; cbn in H;
      rewrite stats_checkMemoryCache in H; cbn in H.
    + cbn. rewrite <- H. reflexivity.
    + destruct (checkDiskCache _ _ _ c2) as [d c3] eqn:E2.
      pose proof (f_equal (fun x => stats (snd x)) E2) as H2. cbn in H2.
      rewrite stats_checkDiskCache in H2. cbn. rewrite <- H2, <- H. reflexivity.
  - reflexivity.
  - destruct (s3Cache cfg); [|reflexivity].
    destruct (checkS3Cache _ _ _ _ _) as [s c1] eqn:E.
    pose proof (f_equal (fun x => stats (snd x)) E) as H. cbn in H.
    rewrite stats_checkS3Cache in H. cbn. rewrite <- H. reflexivity.
  - cbn. rewrite stats_storeToDiskCache. reflexivity.
  - reflexivity.
  - cbn. rewrite stats_storeInAllCaches. reflexivity.
  - reflexivity.
  - reflexivity.
Qed.

Lemma run_totalRequests_not_start cfg penv env n p c :
  (1 <= rank p)%nat ->
  totalRequests (stats (snd (run cfg penv env n p c))) = totalRequests (stats c).
Proof.
  revert p c. induction n as [|n IH]; intros p c Hr; cbn [run]; [reflexivity|].
  pose proof (step_totalRequests cfg penv env p c) as T.
  destruct (Nat.lt_ge_cases (rank p) 4) as [Hl|Hg].
  - pose proof (step_rank cfg penv env p c Hl) as R.
    destruct (step cfg penv env p c) as [p' c'] eqn:E. cbn [fst snd] in *.
    rewrite IH by lia. rewrite T. destruct p; cbn in Hr; [lia|..]; reflexivity.
  - destruct p; cbn in Hg; try lia. cbn [step] in T |- *. apply IH. cbn. lia.
Qed.

Lemma step_counters_mono cfg penv env p c :
  let s := stats c in
  let s' := stats (snd (step cfg penv env p c)) in
  (memoryHits s <= memoryHits s' /\ diskHits s <= diskHits s' /\
   s3Hits s <= s3Hits s' /\ misses s <= misses s')%nat.
Proof.
  cbv zeta.
  destruct p as [r|r key [b|]|r key [b|]|r key [b|e]|res]; cbn [step].
  - destruct (checkMemoryCache _ _ _ _) as [[b|] c2] eqn:E1.
    + pose proof (f_equal (fun x => stats (snd x)) E1) as H. cbn in H.
      rewrite stats_checkMemoryCache in H. cbn in H. cbn. rewrite <- H. cbn. lia.
    + pose proof (f_equal (fun x => stats (snd x)) E1) as H. cbn in H.
      rewrite stats_checkMemoryCache in H. cbn in H.
      destruct (checkDiskCache _ _ _ c2) as [d c3] eqn:E2.
      pose proof (f_equal (fun x => stats (snd x)) E2) as H2. cbn in H2.
      rewrite stats_checkDiskCache in H2. cbn. rewrite <- H2, <- H. cbn. lia.
  - unfold storeInMemoryCache. cbn. lia.
  - destruct (s3Cache cfg).
    + destruct (checkS3Cache _ _ _ _ _) as [s c1] eqn:E.
      pose proof (f_equal (fun x => stats (snd x)) E) as H. cbn in H.
      rewrite stats_checkS3Cache in H. cbn. rewrite <- H. lia.
    + unfold begin_generation. cbn. lia.
  - cbn. rewrite stats_storeToDiskCache. unfold storeInMemoryCache. cbn. lia.
  - unfold begin_generation. cbn. lia.
  - cbn. rewrite stats_storeInAllCaches. lia.
  - cbn. lia.
  - cbn. lia.
Qed.

Lemma run_counters_mono cfg penv env n p c :
  let s := stats c in
  let s' := stats (snd (run cfg penv env n p c)) in
  (memoryHits s <= memoryHits s' /\ diskHits s <= diskHits s' /\
   s3Hits s <= s3Hits s' /\ misses s <= misses s')%nat.
Proof.
  cbv zeta. revert p c. induction n as [|n IH]; intros p c; cbn [run]; [cbn; lia|].
  pose proof (step_counters_mono cfg penv env p c) as Hs.
  destruct (step cfg penv env p c) as [p' c'] eqn:E. cbn [snd] in Hs.
  specialize (IH p' c'). lia.
Qed.

(** A call alone increments [totalRequests] by one and exactly one of
    [memoryHits], [diskHits], [s3Hits] and [misses] by one, leaving the
    other three unchanged. *)
Theorem getAudioWithCache_stats_balance cfg penv env r c :
  let s := stats c in
  let s' := stats (snd (getAudioWithCache cfg penv env r c)) in
  totalRequests s' = S (totalRequests s) /\
  ((memoryHits s' = S (memoryHits s) /\ diskHits s' = diskHits s /\
    s3Hits s' = s3Hits s /\ misses s' = misses s) \/
   (memoryHits s' = memoryHits s /\ diskHits s' = S (diskHits s) /\
    s3Hits s' = s3Hits s /\ misses s' = misses s) \/
   (memoryHits s' = memoryHits s /\ diskHits s' = diskHits s /\
    s3Hits s' = S (s3Hits s) /\ misses s' = misses s) \/
   (memoryHits s' = memoryHits s /\ diskHits s' = diskHits s /\
    s3Hits s' = s3Hits s /\ misses s' = S (misses s))).
Proof.
  cbv zeta. unfold getAudioWithCache.
  pose proof (run_counters_mono cfg penv env 4 (Start r) c) as M. cbv zeta in M.
  pose proof (step_totalRequests cfg penv env (Start r) c) as T.
  pose proof (step_rank cfg penv env (Start r) c) as R1.
  pose proof (run_stats_balance cfg penv env 4 (Start r) c) as B.
  pose proof (run_rank cfg penv env 4 (Start r) c) as R.
  destruct (step cfg penv env (Start r) c) as [p1 c1] eqn:E1. cbn [fst snd] in T, R1.
  assert (E4 : run cfg penv env 4 (Start r) c = run cfg penv env 3 p1 c1).
  { cbn [run]. rewrite E1. reflexivity. }
  pose proof (run_totalRequests_not_start cfg penv env 3 p1 c1) as T3.
  rewrite E4 in B, R, M |- *.
  destruct (run cfg penv env 3 p1 c1) as [p c'] eqn:E. cbn [fst snd] in *.
  assert (Ht : totalRequests (stats c') = S (totalRequests (stats c))).
  { rewrite T3 by (cbn in R1; lia). exact T. }
  assert (Ho : owed p = 0%nat) by (destruct p; cbn in R |- *; lia).
  unfold stats_sum in B. cbn [owed] in B. rewrite Ho in B.
  split; [exact Ht | lia].
Qed.

(** [storeInMemoryCache] then a lookup: the stored key answers the new
    entry; at capacity the first-inserted key is gone; every other key is
    unchanged; and [checkMemoryCache] finds the buffer within the expiry
    period. *)
Theorem storeInMemoryCache_get cfg t k b c k' t' :
  JSMap.get k' (memoryCache (storeInMemoryCache cfg t k b c))
  = (if String.eqb k k' then Some {| data := b; timestamp := t |}
     else if (maxMemoryCache cfg <=? JSMap.size (memoryCache c))%nat
             && match JSMap.first_key (memoryCache c) with
                | Some k0 => String.eqb k0 k' | None => false end
     then None
     else JSMap.get k' (memoryCache c)) /\
  (t' - t < cacheExpiry cfg ->
   fst (checkMemoryCache cfg t' k (storeInMemoryCache cfg t k b c)) = Some b).
Proof.
  split; [|apply checkMemoryCache_after_store].
  unfold storeInMemoryCache. rewrite memoryCache_set_memory, JSMapFacts.get_set.
  destruct (String.eqb k k'); [reflexivity|].
  destruct (_ <=? _)%nat; cbn [andb]; [|reflexivity].
  unfold JSMap.delete_first. destruct (JSMap.first_key (memoryCache c)) as [k0|]; [|reflexivity].
  apply JSMapFacts.get_delete.
Qed.

Lemma set_files_fields f g c :
  memoryCache (set_files f g c) = memoryCache c /\ diskCache (set_files f g c) = diskCache c /\
  stats (set_files f g c) = stats c /\ events (set_files f g c) = events c.
Proof. repeat split. Qed.

(** [checkDiskCache] changes neither the disk index nor the memory tier,
    and deletes no file of another key. *)
Theorem checkDiskCache_touches_only_key_files cfg t k c :
  let c' := snd (checkDiskCache cfg t k c) in
  diskCache c' = diskCache c /\ memoryCache c' = memoryCache c /\
  (forall k', k' <> k ->
     JSMap.get k' (mp3Files c') = JSMap.get k' (mp3Files c) /\
     JSMap.get k' (metaFiles c') = JSMap.get k' (metaFiles c)).
Proof.
  cbv zeta. unfold checkDiskCache.
  destruct (JSMap.get k (mp3Files c)), (JSMap.get k (metaFiles c)) as [[]|];
    try (repeat split; reflexivity).
  destruct (_ >? _); [|repeat split; reflexivity].
  cbn. split; [reflexivity|]. split; [reflexivity|].
  intros k2 Hk. rewrite !JSMapFacts.get_delete.
  destruct (String.eqb_spec k k2) as [E|]; [congruence|]. split; reflexivity.
Qed.


Lemma size_removeDiskCacheEntry u k c :
  (JSMap.size (diskCache (removeDiskCacheEntry u k c)) <= JSMap.size (diskCache c))%nat.
Proof.
  unfold removeDiskCacheEntry.
  destruct (_ && _); [apply Nat.le_refl|]. destruct (_ && _); [apply Nat.le_refl|].
  destruct k; [apply JSMapFacts.size_delete_le | apply Nat.le_refl].
Qed.


(** When both files can be written, [storeToDiskCache] indexes the key
    with the current time, and [checkDiskCache] returns the buffer up to
    [cacheExpiry] after it and a miss later. *)
Theorem storeToDiskCache_roundtrip cfg env k b c t :
  writable env (mp3Path k) = true -> writable env (metaPath k) = true ->
  JSMap.get k (diskCache (storeToDiskCache cfg env k b c)) = Some (now env) /\
  (t - now env <= cacheExpiry cfg ->
   fst (checkDiskCache cfg t k (storeToDiskCache cfg env k b c)) = Some b) /\
  (cacheExpiry cfg < t - now env ->
   fst (checkDiskCache cfg t k (storeToDiskCache cfg env k b c)) = None).
Proof.
  intros Hw1 Hw2. split; [|split].
  - unfold storeToDiskCache. rewrite Hw1, Hw2. cbn. apply JSMapFacts.get_set_eq.
  - intros Ht. apply checkDiskCache_after_store; assumption.
  - intros Ht. unfold storeToDiskCache. rewrite Hw1, Hw2.
    unfold checkDiskCache. cbn [set_diskIndex set_files mp3Files metaFiles].
    rewrite !JSMapFacts.get_set_eq.
    rewrite Z.gtb_ltb. destruct (Z.ltb_spec (cacheExpiry cfg) (t - now env)); [|lia].
    reflexivity.
Qed.



Section Cleanup.
Variables (cfg : Config) (t : Z) (u : string -> bool).



End Cleanup.


Lemma metaFiles_load_meta_files files c : metaFiles (load_meta_files files c) = metaFiles c.
Proof.
  revert c. induction files as [|f fs IH]; intros c; cbn [load_meta_files]; [reflexivity|].
  destruct (endsWith f ".meta"); [|apply IH].
  destruct (JSMap.get _ (metaFiles c)) as [[]|]; try reflexivity. rewrite IH. reflexivity.
Qed.

(** A [.meta] file that is missing or does not parse ends
    [loadDiskCacheIndex]: the files listed after it are not indexed. *)
Theorem loadDiskCacheIndex_stops_at_unreadable_meta l1 f l2 c :
  endsWith f ".meta" = true -> meta_parses c f = false ->
  loadDiskCacheIndex (Some (l1 ++ f :: l2)) c = loadDiskCacheIndex (Some l1) c.
Proof.
  intros He Hp. cbn [loadDiskCacheIndex]. revert c Hp.
  induction l1 as [|g l1 IH]; intros c Hp; cbn [app load_meta_files].
  - rewrite He. unfold meta_parses in Hp.
    destruct (JSMap.get _ (metaFiles c)) as [[]|]; [discriminate|reflexivity|reflexivity].
  - destruct (endsWith g ".meta"); [|apply IH; exact Hp].
    destruct (JSMap.get _ (metaFiles c)) as [[]|]; try reflexivity.
    apply IH. unfold meta_parses in *. exact Hp.
Qed.



Lemma checkMemoryCache_hit cfg t k c b c2 :
  checkMemoryCache cfg t k c = (Some b, c2) ->
  c2 = c /\ exists ts, JSMap.get k (memoryCache c) = Some {| data := b; timestamp := ts |} /\
                      t - ts < cacheExpiry cfg.
Proof.
  unfold checkMemoryCache. destruct (JSMap.get k (memoryCache c)) as [[d ts]|] eqn:E; [|discriminate].
  cbn [timestamp data]. destruct (Z.ltb_spec (t - ts) (cacheExpiry cfg)) as [Hlt|]; [|discriminate].
  intros Heq; injection Heq as <- <-. split; [reflexivity|]. exists ts. auto.
Qed.

Lemma memoryCache_storeInAllCaches cfg penv env k b c :
  memoryCache (storeInAllCaches cfg penv env k b c)
  = memoryCache (storeInMemoryCache cfg (now env) k b c).
Proof.
  unfold storeInAllCaches. destruct (s3Cache cfg); cbn [storeToS3Cache emit memoryCache];
  apply storeToDiskCache_memoryCache.
Qed.

Lemma get_storeInMemoryCache_self cfg t k b c :
  JSMap.get k (memoryCache (storeInMemoryCache cfg t k b c))
  = Some {| data := b; timestamp := t |}.
Proof. unfold storeInMemoryCache. rewrite memoryCache_set_memory. apply JSMapFacts.get_set_eq. Qed.

Lemma memoryCache_checkMemoryCache cfg t k c :
  memoryCache (snd (checkMemoryCache cfg t k c)) = memoryCache c \/
  memoryCache (snd (checkMemoryCache cfg t k c)) = JSMap.delete k (memoryCache c).
Proof.
  unfold checkMemoryCache. destruct (JSMap.get k (memoryCache c)); [|auto].
  destruct (_ <? _); cbn; auto.
Qed.

Lemma memoryCache_checkDiskCache cfg t k c :
  memoryCache (snd (checkDiskCache cfg t k c)) = memoryCache c.
Proof.
  unfold checkDiskCache. destruct (JSMap.get k (mp3Files c)), (JSMap.get k (metaFiles c)) as [[]|];
    try reflexivity. destruct (_ >? _); reflexivity.
Qed.

Lemma memoryCache_checkS3Cache cfg penv env k c :
  memoryCache (snd (checkS3Cache cfg penv env k c)) = memoryCache c.
Proof.
  unfold checkS3Cache. destruct (s3Head env _ _); [|reflexivity].
  destruct (_ >? _); [reflexivity|]. destruct (s3Get env _ _); reflexivity.
Qed.

Lemma memoryCache_storeInMemoryCache cfg t k b c :
  memoryCache (storeInMemoryCache cfg t k b c)
  = JSMap.set k {| data := b; timestamp := t |}
      (if (maxMemoryCache cfg <=? JSMap.size (memoryCache c))%nat
       then JSMap.delete_first (memoryCache c) else memoryCache c).
Proof. reflexivity. Qed.

Ltac gen_case :=
  match goal with Hr : _ = (?p, ?c') |- _ =>
    cbn [run step] in Hr; unfold begin_generation in Hr; cbn [run step] in Hr;
    match type of Hr with context [polly ?env ?t ?v ?o] =>
      destruct (polly env t v o) as [b|e]; cbn [step] in Hr; injection Hr as <- <-;
      cbn [result_of]; right;
      [right; exists b, "generated", false; split; [|reflexivity];
       rewrite memoryCache_storeInAllCaches, memoryCache_storeInMemoryCache
      |left; exists e; split; [|reflexivity]];
      cbn [memoryCache set_stats emit];
      repeat match goal with H : memoryCache _ = memoryCache _ |- _ => progress rewrite H end;
      reflexivity
    end
  end.

(** What a call does to the memory tier: the lookup may drop the key's
    expired entry; then the call either returns the entry it found, or
    rejects, or stores the buffer it returns under its key. *)
Lemma getAudioWithCache_memory_cases cfg penv env r c :
  let key := generateCacheKey (text r) (voiceId r) (options r) in
  let res := fst (getAudioWithCache cfg penv env r c) in
  let m' := memoryCache (snd (getAudioWithCache cfg penv env r c)) in
  exists m1, (m1 = memoryCache c \/ m1 = JSMap.delete key (memoryCache c)) /\
  ((exists b ts, JSMap.get key m1 = Some {| data := b; timestamp := ts |} /\
       now env - ts < cacheExpiry cfg /\ m' = m1 /\ res = Ok (response b "memory" key true)) \/
   (exists e, m' = m1 /\ res = Err e) \/
   (exists b src fc,
       m' = JSMap.set key {| data := b; timestamp := now env |}
              (if (maxMemoryCache cfg <=? JSMap.size m1)%nat then JSMap.delete_first m1 else m1) /\
       res = Ok (response b src key fc))).
Proof.
  intros key res m'. subst res m'.
  unfold getAudioWithCache. destruct (run cfg penv env 4 (Start r) c) as [p c'] eqn:Hr.
  cbn [fst snd]. cbn [run] in Hr. unfold step at 1 in Hr. fold key in Hr.
  rewrite mem_set_stats in Hr.
  pose proof (memoryCache_checkMemoryCache cfg (now env) key c) as Hm1.
  destruct (checkMemoryCache cfg (now env) key c) as [[b|] c2] eqn:Em; cbn [fst snd] in Hr, Hm1.
  - apply checkMemoryCache_hit in Em as [-> [ts [Hg Ht]]].
    cbn [run step] in Hr. injection Hr as <- <-. exists (memoryCache c). split; [left; reflexivity|].
    left. exists b, ts. cbn. auto.
  - exists (memoryCache c2). split; [exact Hm1|]. clear Hm1.
    pose proof (memoryCache_checkDiskCache cfg (now env) key (set_stats (bump_totalRequests (stats c)) c2)) as Hd.
    destruct (checkDiskCache cfg (now env) key _) as [[b|] c3] eqn:Ed; cbn [snd memoryCache set_stats] in Hd.
    + cbn [run step] in Hr. injection Hr as <- <-. right; right. exists b, "disk", true.
      split; [|reflexivity]. rewrite memoryCache_storeInMemoryCache. cbn [memoryCache set_stats].
      rewrite Hd. reflexivity.
    + cbn [run] in Hr. unfold step at 1 in Hr.
      destruct (s3Cache cfg) eqn:Hs.
      * pose proof (memoryCache_checkS3Cache cfg penv env key c3) as H3.
        destruct (checkS3Cache cfg penv env key c3) as [[b|] c4] eqn:E3; cbn [snd] in H3.
        -- cbn [run step] in Hr. injection Hr as <- <-. right; right. exists b, "s3", true.
           split; [|reflexivity]. rewrite storeToDiskCache_memoryCache, memoryCache_storeInMemoryCache.
           cbn [memoryCache set_stats]. rewrite H3, Hd. reflexivity.
        -- gen_case.
      * gen_case.
Qed.

(** After a call that resolves, the memory tier holds the returned buffer
    under the returned key, stored now or still fresh. *)
Theorem getAudioWithCache_ok_in_memory cfg penv env r c resp :
  fst (getAudioWithCache cfg penv env r c) = Ok resp ->
  exists ts, JSMap.get (cacheKey resp) (memoryCache (snd (getAudioWithCache cfg penv env r c)))
             = Some {| data := audioBuffer resp; timestamp := ts |} /\
             (ts = now env \/ now env - ts < cacheExpiry cfg).
Proof.
  intros Hok. destruct (getAudioWithCache_memory_cases cfg penv env r c)
    as (m1 & _ & [(b & ts & Hg & Ht & Hm & Hres)|[(e & _ & Hres)|(b & src & fc & Hm & Hres)]]);
    rewrite Hok in Hres; try discriminate; injection Hres as ->; cbn [cacheKey audioBuffer response].
  - exists ts. rewrite Hm. auto.
  - exists (now env). rewrite Hm, JSMapFacts.get_set_eq. auto.
Qed.

Lemma getAudioWithCache_ok_of_polly cfg penv env r c b :
  polly env (text r) (voiceId r) (options r) = Ok b ->
  exists resp, fst (getAudioWithCache cfg penv env r c) = Ok resp.
Proof.
  intros Hp. rewrite getAudioWithCache_result. cbv zeta.
  destruct (fst (checkMemoryCache _ _ _ _)); [eauto|].
  destruct (fst (checkDiskCache _ _ _ _)); [eauto|].
  destruct (if s3Cache cfg then _ else None); [eauto|].
  rewrite Hp. eauto.
Qed.

Lemma size_evict {V} cfg (m : JSMap.t V) :
  (JSMap.size (if (maxMemoryCache cfg <=? JSMap.size m)%nat then JSMap.delete_first m else m)
   <= JSMap.size m)%nat.
Proof.
  destruct (_ <=? _)%nat; [|apply Nat.le_refl].
  unfold JSMap.delete_first. destruct (JSMap.first_key m); [apply JSMapFacts.size_delete_le|apply Nat.le_refl].
Qed.

(** One call, seen from the memory tier, when Polly answers and memory is
    below capacity: the call's key is present afterwards, every other key
    keeps its entry, and the size grows by at most one. *)
Lemma getAudioWithCache_memory_step cfg penv env r c b :
  let key := generateCacheKey (text r) (voiceId r) (options r) in
  let m' := memoryCache (snd (getAudioWithCache cfg penv env r c)) in
  polly env (text r) (voiceId r) (options r) = Ok b ->
  (JSMap.size (memoryCache c) < maxMemoryCache cfg)%nat ->
  JSMap.get key m' <> None /\
  (forall k, k <> key -> JSMap.get k m' = JSMap.get k (memoryCache c)) /\
  (JSMap.size m' <= S (JSMap.size (memoryCache c)))%nat.
Proof.
  intros key m' Hp Hsz. subst m'.
  destruct (getAudioWithCache_ok_of_polly cfg penv env r c b Hp) as [resp Hok].
  destruct (getAudioWithCache_memory_cases cfg penv env r c) as (m1 & Hm1 & Hcase). fold key in Hm1, Hcase.
  assert (Hget1 : forall k, k <> key -> JSMap.get k m1 = JSMap.get k (memoryCache c)).
  { intros k Hk. destruct Hm1 as [->| ->]; [reflexivity|].
    rewrite JSMapFacts.get_delete. destruct (String.eqb_spec key k); [congruence|reflexivity]. }
  assert (Hsz1 : (JSMap.size m1 <= JSMap.size (memoryCache c))%nat).
  { destruct Hm1 as [->| ->]; [apply Nat.le_refl|apply JSMapFacts.size_delete_le]. }
  destruct Hcase as [(b' & ts & Hg & _ & Hm & _)|[(e & _ & Hres)|(b' & src & fc & Hm & _)]].
  - rewrite Hm. split; [congruence|]. split; [exact Hget1|]. lia.
  - rewrite Hok in Hres. discriminate.
  - rewrite Hm. split; [rewrite JSMapFacts.get_set_eq; discriminate|]. split.
    + intros k Hk. rewrite JSMapFacts.get_set.
      destruct (String.eqb_spec key k) as [E|]; [congruence|].
      destruct (Nat.leb_spec (maxMemoryCache cfg) (JSMap.size m1)); [lia|]. apply Hget1; exact Hk.
    + eapply Nat.le_trans; [apply JSMapFacts.size_set_le|].
      pose proof (size_evict cfg m1). lia.
Qed.

Lemma preCache_from_memory cfg penv envs i jobs c :
  (forall n t v o, exists b, polly (envs n) t v o = Ok b) ->
  NoDup (map job_key jobs) ->
  (JSMap.size (memoryCache c) + List.length jobs <= maxMemoryCache cfg)%nat ->
  let m' := memoryCache (preCache_from cfg penv envs i jobs c) in
  (forall k, In k (map job_key jobs) -> JSMap.get k m' <> None) /\
  (forall k, ~ In k (map job_key jobs) -> JSMap.get k m' = JSMap.get k (memoryCache c)) /\
  (JSMap.size m' <= JSMap.size (memoryCache c) + List.length jobs)%nat.
Proof.
  intros Hp. revert i c. induction jobs as [|[alert voice] jobs IH]; intros i c Hnd Hsz m'; subst m'.
  - cbn. split; [intros ? []|]. split; [auto|lia].
  - cbn [preCache_from map List.length] in *. inversion Hnd as [|? ? Hnin Hnd']. subst.
    set (r := {| text := alert; voiceId := voice; options := no_options |}).
    destruct (Hp i alert voice no_options) as [b Hb].
    destruct (getAudioWithCache_memory_step cfg penv (envs i) r c b Hb) as (S1 & S2 & S3); [lia|].
    set (c1 := snd (getAudioWithCache cfg penv (envs i) r c)) in *.
    destruct (IH (S i) c1 Hnd') as (T1 & T2 & T3); [lia|].
    split; [|split].
    + intros k [<-|Hk]; [|exact (T1 k Hk)].
      rewrite T2 by exact Hnin. exact S1.
    + intros k Hk. rewrite T2 by (intro; apply Hk; right; assumption).
      apply S2. intro E. apply Hk. left. symmetry. exact E.
    + lia.
Qed.

Lemma nodupb_NoDup l : nodupb l = true -> NoDup l.
Proof.
  induction l as [|x l IH]; cbn; intros H; [constructor|].
  apply andb_true_iff in H as [H1 H2]. constructor; [|exact (IH H2)].
  intros Hin. apply negb_true_iff in H1.
  assert (Hx : exists y, In y l /\ String.eqb x y = true)
    by (exists x; split; [exact Hin | apply String.eqb_refl]).
  apply existsb_exists in Hx. congruence.
Qed.

(** When Polly answers and the memory tier has room for the 18 entries,
    [preCacheCommonAlerts] leaves every alert and voice in memory and
    changes no other key. *)
Theorem preCacheCommonAlerts_fills_memory cfg penv envs c :
  (forall n t v o, exists b, polly (envs n) t v o = Ok b) ->
  (JSMap.size (memoryCache c) + 18 <= maxMemoryCache cfg)%nat ->
  let m' := memoryCache (preCacheCommonAlerts cfg penv envs c) in
  (forall alert voice, In alert commonAlerts -> In voice voices ->
     JSMap.get (generateCacheKey alert voice no_options) m' <> None) /\
  (forall k, (forall alert voice, In alert commonAlerts -> In voice voices ->
                generateCacheKey alert voice no_options <> k) ->
     JSMap.get k m' = JSMap.get k (memoryCache c)).
Proof.
  intros Hp Hsz m'. unfold preCacheCommonAlerts in m'.
  destruct (preCache_from_memory cfg penv envs 0 (list_prod commonAlerts voices) c Hp)
    as (P1 & P2 & _).
  - apply nodupb_NoDup. vm_compute. reflexivity.
  - exact Hsz.
  - split.
    + intros alert voice Ha Hv. apply (P1 (job_key (alert, voice))).
      apply in_map. apply in_prod; assumption.
    + intros k Hk. apply P2. intros Hin. apply in_map_iff in Hin as ([a v] & E & Hin).
      apply in_prod_iff in Hin as [Ha Hv]. exact (Hk a v Ha Hv E).
Qed.

Lemma checked_split s :
  In s checked_services ->
  exists l1 l2, checked_services = l1 ++ s :: l2 /\ ~ In s l1 /\ ~ In s l2.
Proof.
  unfold checked_services. intros Hs.
  destruct Hs as [<-|[<-|[<-|[<-|[]]]]].
  - exists [], ["transcribe"; "s3-cache"; "cloudfront"]. cbn; intuition discriminate.
  - exists ["polly"], ["s3-cache"; "cloudfront"]. cbn; intuition discriminate.
  - exists ["polly"; "transcribe"], ["cloudfront"]. cbn; intuition discriminate.
  - exists ["polly"; "transcribe"; "s3-cache"], []. cbn; intuition discriminate.
Qed.

(** In a round, a checked service ends as [updateService] leaves it, run
    on a monitor that agrees with the initial one on that service. *)
Lemma performHealthCheck_split henv m s :
  In s checked_services ->
  exists m1,
    JSMap.get s (consecutiveFailures m1) = JSMap.get s (consecutiveFailures m) /\
    failover_count s m1 = failover_count s m /\
    JSMap.get s (consecutiveFailures (performHealthCheck henv m))
    = JSMap.get s (consecutiveFailures (updateService henv m1 s)) /\
    JSMap.get s (serviceStatus (performHealthCheck henv m))
    = JSMap.get s (serviceStatus (updateService henv m1 s)) /\
    failover_count s (performHealthCheck henv m) = failover_count s (updateService henv m1 s).
Proof.
  intros Hs. destruct (checked_split s Hs) as (l1 & l2 & Hl & H1 & H2).
  unfold performHealthCheck. rewrite Hl, fold_left_app. cbn [fold_left].
  exists (fold_left (updateService henv) l1 m).
  destruct (fold_updateService_other henv l1 m s H1) as (E1 & E2 & E3).
  destruct (fold_updateService_other henv l2
              (updateService henv (fold_left (updateService henv) l1 m) s) s H2)
    as (F1 & F2 & F3).
  auto.
Qed.

Lemma updateService_healthy henv m s :
  probe henv s = true ->
  JSMap.get s (consecutiveFailures (updateService henv m s)) = Some (Fin 0) /\
  JSMap.get s (serviceStatus (updateService henv m s)) = Some "healthy" /\
  failover_count s (updateService henv m s) = failover_count s m.
Proof.
  intros Hp. unfold updateService. rewrite Hp. cbn.
  rewrite !JSMapFacts.get_set_eq. auto.
Qed.

(** A round that fails a checked service whose counter is [n]. *)
Lemma performHealthCheck_failing henv m s n :
  In s checked_services -> probe henv s = false ->
  JSMap.get s (consecutiveFailures m) = Some (Fin n) ->
  JSMap.get s (consecutiveFailures (performHealthCheck henv m)) = Some (Fin (S n)) /\
  JSMap.get s (serviceStatus (performHealthCheck henv m))
  = Some (if (failoverThreshold <=? S n)%nat then "failed" else "degraded") /\
  failover_count s (performHealthCheck henv m)
  = ((if (failoverThreshold <=? S n)%nat then 1 else 0) + failover_count s m)%nat.
Proof.
  intros Hs Hp Hc. destruct (performHealthCheck_split henv m s Hs) as (m1 & E1 & E2 & -> & -> & ->).
  rewrite <- E1 in Hc. rewrite <- E2.
  destruct (updateService_self henv m1 s n Hc) as (U1 & U2 & U3). rewrite Hp in U1, U2, U3.
  auto.
Qed.

Lemma performHealthCheck_healthy henv m s :
  In s checked_services -> probe henv s = true ->
  JSMap.get s (consecutiveFailures (performHealthCheck henv m)) = Some (Fin 0) /\
  JSMap.get s (serviceStatus (performHealthCheck henv m)) = Some "healthy" /\
  failover_count s (performHealthCheck henv m) = failover_count s m.
Proof.
  intros Hs Hp. destruct (performHealthCheck_split henv m s Hs) as (m1 & E1 & E2 & -> & -> & ->).
  rewrite <- E2. apply updateService_healthy. exact Hp.
Qed.

(** [k] rounds in a row that fail a checked service starting from counter
    [n] end with counter [n + k], status failed from 3 on and degraded
    below, and one failover per round whose counter reaches 3. *)
Theorem health_rounds_consecutive_failures s n rounds m :
  In s checked_services ->
  Forall (fun h => probe h s = false) rounds ->
  JSMap.get s (consecutiveFailures m) = Some (Fin n) ->
  let m' := health_rounds rounds m in
  JSMap.get s (consecutiveFailures m') = Some (Fin (n + List.length rounds)) /\
  failover_count s m' = (failover_count s m + (n + List.length rounds - Nat.max n 2))%nat /\
  (rounds <> [] ->
     JSMap.get s (serviceStatus m')
     = Some (if (failoverThreshold <=? n + List.length rounds)%nat then "failed" else "degraded")).
Proof.
  intros Hs Hall. revert n m. induction Hall as [|h rounds Hh Hall IH]; intros n m Hc m'; subst m'.
  - cbn. rewrite Nat.add_0_r. split; [exact Hc|]. split; [lia|]. congruence.
  - cbn [health_rounds List.length].
    destruct (performHealthCheck_failing h m s n Hs Hh Hc) as (P1 & P2 & P3).
    destruct (IH (S n) (performHealthCheck h m) P1) as (I1 & I2 & I3).
    split; [|split].
    + rewrite I1. f_equal. f_equal. lia.
    + rewrite I2, P3. unfold failoverThreshold.
      destruct (Nat.leb_spec 3 (S n)); lia.
    + intros _. destruct rounds as [|h' rounds'].
      * cbn [health_rounds List.length]. rewrite P2. replace (n + 1)%nat with (S n) by lia. reflexivity.
      * rewrite I3 by discriminate. cbn [List.length]. replace (S n + S (List.length rounds'))%nat with (n + S (S (List.length rounds')))%nat by lia. reflexivity.
Qed.

(** The monitoring rounds never change the counter, status or failovers
    of a service outside the four checked ones, such as [websocket] and
    [kafka]. *)
Theorem monitoring_rounds_unchecked_service s rounds m :
  ~ In s checked_services ->
  let m' := monitoring_rounds rounds m in
  JSMap.get s (consecutiveFailures m') = JSMap.get s (consecutiveFailures m) /\
  JSMap.get s (serviceStatus m') = JSMap.get s (serviceStatus m) /\
  failover_count s m' = failover_count s m.
Proof.
  intros Hs. revert m. induction rounds as [|a rounds IH]; intros m m'; subst m'; cbn [monitoring_rounds];
    [auto|].
  destruct (IH (performHealthCheck (health_env (procEnv m) a) m)) as (I1 & I2 & I3).
  destruct (fold_updateService_other (health_env (procEnv m) a) checked_services m s Hs)
    as (F1 & F2 & F3).
  rewrite I1, I2, I3. unfold performHealthCheck. rewrite F1, F2, F3. auto.
Qed.

Lemma triggerFailover_probe_keys henv s m k :
  k = "CLOUDFRONT_DOMAIN" \/ k = "AUDIO_CACHE_BUCKET" ->
  JSMap.get k (procEnv (triggerFailover henv s m)) = JSMap.get k (procEnv m).
Proof.
  intros Hk. unfold triggerFailover. cbn [procEnv].
  unfold pollyFailover, transcribeFailover, s3Failover, cloudFrontFailover.
  destruct Hk as [->| ->];
  repeat match goal with |- context [if String.eqb ?a ?b then _ else _] => destruct (String.eqb a b) end;
  try destruct (fallbackPollyOk henv); try destruct (fallbackTranscribeOk henv);
  rewrite ?JSMapFacts.get_set; reflexivity.
Qed.

Lemma performHealthCheck_probe_keys henv m k :
  k = "CLOUDFRONT_DOMAIN" \/ k = "AUDIO_CACHE_BUCKET" ->
  JSMap.get k (procEnv (performHealthCheck henv m)) = JSMap.get k (procEnv m).
Proof.
  intros Hk. unfold performHealthCheck. generalize checked_services as l.
  intros l. revert m. induction l as [|s l IH]; intros m; cbn [fold_left]; [reflexivity|].
  rewrite IH. unfold updateService. destruct (probe henv s); [reflexivity|].
  destruct (num_geb _ _); [|reflexivity].
  rewrite triggerFailover_probe_keys by exact Hk. reflexivity.
Qed.

(** Without a (non-empty) [CLOUDFRONT_DOMAIN], the monitoring rounds keep
    [cloudfront] healthy with counter 0 and never fail it over. *)
Theorem monitoring_rounds_cloudfront_unconfigured rounds m :
  (JSMap.get "CLOUDFRONT_DOMAIN" (procEnv m) = None \/
   JSMap.get "CLOUDFRONT_DOMAIN" (procEnv m) = Some EmptyString) ->
  let m' := monitoring_rounds rounds m in
  failover_count "cloudfront" m' = failover_count "cloudfront" m /\
  (rounds <> [] ->
     JSMap.get "cloudfront" (consecutiveFailures m') = Some (Fin 0) /\
     JSMap.get "cloudfront" (serviceStatus m') = Some "healthy").
Proof.
  intros Hd. revert m Hd. induction rounds as [|a rounds IH]; intros m Hd m'; subst m';
    cbn [monitoring_rounds]; [split; [reflexivity | congruence]|].
  set (h := health_env (procEnv m) a).
  assert (Hp : probe h "cloudfront" = true).
  { cbn. unfold checkCloudFrontHealth. destruct Hd as [-> | ->]; reflexivity. }
  assert (Hin : In "cloudfront" checked_services) by (cbn; tauto).
  destruct (performHealthCheck_healthy h m "cloudfront" Hin Hp) as (P1 & P2 & P3).
  assert (Hd' : JSMap.get "CLOUDFRONT_DOMAIN" (procEnv (performHealthCheck h m)) = None \/
                JSMap.get "CLOUDFRONT_DOMAIN" (procEnv (performHealthCheck h m)) = Some EmptyString)
    by (rewrite performHealthCheck_probe_keys by (left; reflexivity); exact Hd).
  destruct (IH _ Hd') as (I1 & I2). split.
  - rewrite I1. exact P3.
  - intros _. destruct rounds as [|a' rounds']; [cbn; auto|]. apply I2. discriminate.
Qed.



(** ** Instances of the further properties *)

(** Two lookups of [req_emergency] interleaved segment by segment. *)
Lemma run_sched_stats_balance_witness :
  let cfg := constructor_config in
  let sched := round_robin 2 4 in
  let ps := [Start req_emergency; Start req_emergency] in
  (stats_sum (stats (fst (run_sched cfg penv0 (env_abc 0) sched initial_cache ps)))
   + owed_all (snd (run_sched cfg penv0 (env_abc 0) sched initial_cache ps))
   = totalRequests (stats (fst (run_sched cfg penv0 (env_abc 0) sched initial_cache ps))))%nat.
Proof.
  intros cfg sched ps.
  apply (run_sched_stats_balance cfg penv0 (env_abc 0) sched initial_cache ps).
  vm_compute. reflexivity.
Defined.


Lemma storeToDiskCache_roundtrip_witness :
  let c' := storeToDiskCache constructor_config (env_abc 0) "k1" [1; 2] initial_cache in
  JSMap.get "k1" (diskCache c') = Some 0 /\
  (1000 - 0 <= cacheExpiry constructor_config ->
   fst (checkDiskCache constructor_config 1000 "k1" c') = Some [1; 2]) /\
  (cacheExpiry constructor_config < 1000 - 0 ->
   fst (checkDiskCache constructor_config 1000 "k1" c') = None).
Proof.
  intros c'.
  apply (storeToDiskCache_roundtrip constructor_config (env_abc 0) "k1" [1; 2] initial_cache 1000);
    reflexivity.
Defined.


Lemma loadDiskCacheIndex_stops_at_unreadable_meta_witness :
  loadDiskCacheIndex (Some (["a.meta"] ++ "b.meta" :: ["c.meta"])) cache_three_metas
  = loadDiskCacheIndex (Some ["a.meta"]) cache_three_metas.
Proof.
  apply (loadDiskCacheIndex_stops_at_unreadable_meta ["a.meta"] "b.meta" ["c.meta"] cache_three_metas);
    vm_compute; reflexivity.
Defined.


Lemma getAudioWithCache_ok_in_memory_witness :
  let key := generateCacheKey (text req_emergency) (voiceId req_emergency) (options req_emergency) in
  let resp := response [97; 98; 99] "generated" key false in
  exists ts,
    JSMap.get (cacheKey resp)
      (memoryCache (snd (getAudioWithCache constructor_config penv0 (env_abc 0) req_emergency initial_cache)))
    = Some {| data := audioBuffer resp; timestamp := ts |} /\
    (ts = now (env_abc 0) \/ now (env_abc 0) - ts < cacheExpiry constructor_config).
Proof.
  intros key resp.
  apply (getAudioWithCache_ok_in_memory constructor_config penv0 (env_abc 0) req_emergency
           initial_cache resp).
  vm_compute. reflexivity.
Defined.

Lemma preCacheCommonAlerts_fills_memory_witness :
  let m' := memoryCache (preCacheCommonAlerts constructor_config penv0 (fun n => env_abc (Z.of_nat n)) initial_cache) in
  (forall alert voice, In alert commonAlerts -> In voice voices ->
     JSMap.get (generateCacheKey alert voice no_options) m' <> None) /\
  (forall k, (forall alert voice, In alert commonAlerts -> In voice voices ->
                generateCacheKey alert voice no_options <> k) ->
     JSMap.get k m' = JSMap.get k (memoryCache initial_cache)).
Proof.
  intros m'.
  apply (preCacheCommonAlerts_fills_memory constructor_config penv0 (fun n => env_abc (Z.of_nat n))
           initial_cache).
  - intros n t v o. exists [97; 98; 99]. reflexivity.
  - vm_compute. lia.
Defined.

Lemma health_rounds_consecutive_failures_witness :
  let rounds := [all_fail; all_fail; all_fail; all_fail] in
  let m' := health_rounds rounds (initial_monitor penv0) in
  JSMap.get "s3-cache" (consecutiveFailures m') = Some (Fin (0 + List.length rounds)) /\
  failover_count "s3-cache" m'
  = (failover_count "s3-cache" (initial_monitor penv0) + (0 + List.length rounds - Nat.max 0 2))%nat /\
  (rounds <> [] ->
     JSMap.get "s3-cache" (serviceStatus m')
     = Some (if (failoverThreshold <=? 0 + List.length rounds)%nat then "failed" else "degraded")).
Proof.
  intros rounds m'.
  apply (health_rounds_consecutive_failures "s3-cache" 0 rounds (initial_monitor penv0)).
  - simpl. tauto.
  - repeat constructor.
  - vm_compute. reflexivity.
Defined.

Lemma monitoring_rounds_unchecked_service_witness :
  let m := initial_monitor penv0 in
  let m' := monitoring_rounds [probes_all_down; probes_all_down; probes_all_down] m in
  JSMap.get "websocket" (consecutiveFailures m') = JSMap.get "websocket" (consecutiveFailures m) /\
  JSMap.get "websocket" (serviceStatus m') = JSMap.get "websocket" (serviceStatus m) /\
  failover_count "websocket" m' = failover_count "websocket" m.
Proof.
  intros m m'.
  apply (monitoring_rounds_unchecked_service "websocket" _ m). simpl. intuition discriminate.
Defined.

Lemma monitoring_rounds_cloudfront_unconfigured_witness :
  let m := initial_monitor penv0 in
  let m' := monitoring_rounds [probes_all_down; probes_all_down; probes_all_down] m in
  failover_count "cloudfront" m' = failover_count "cloudfront" m /\
  ([probes_all_down; probes_all_down; probes_all_down] <> [] ->
     JSMap.get "cloudfront" (consecutiveFailures m') = Some (Fin 0) /\
     JSMap.get "cloudfront" (serviceStatus m') = Some "healthy").
Proof.
  intros m m'.
  apply (monitoring_rounds_cloudfront_unconfigured _ m). left. reflexivity.
Defined.


